(** * poliphaser: the asset-identity hash and the duplicate-load registry

    A shallow embedding of [src/lib/poliphaser.js]: the [cyrb53] string hash
    (lines 7-20), the [PP.debug.assert] guard (lines 78-84), the asset
    entry points that read or grow [PP.assets.list_images_id]
    (lines 254-360) and the functions of [PP.game] and [PP.scenes]
    (lines 99-241).  JavaScript values, 32-bit integer operators, thrown
    errors and the calls made to the wrapped engine are written out
    explicitly, so that every definition can be evaluated. *)

From Stdlib Require Import ZArith List String Ascii Bool Lia.
From Stdlib Require Import DecimalString DecimalN DecimalPos.
From Stdlib Require Import Floats.PrimFloat.
Import ListNotations.

Local Open Scope Z_scope.
Set Warnings "-register-all".

(** ** ECMAScript primitives used by the source *)

Module JS.

(** A JavaScript string is a sequence of UTF-16 code units;
    [charCodeAt] returns them as numbers in [0, 65535]. *)
Definition code_unit := Z.
Definition jsstring := list code_unit.

Definition code_unit_ok (c : code_unit) : Prop := 0 <= c < 65536.
Definition wf_string (s : jsstring) : Prop := Forall code_unit_ok s.

(** String literals of the source, as code units. *)
Definition lit (s : string) : jsstring :=
  map (fun a => Z.of_N (N_of_ascii a)) (list_ascii_of_string s).

Fixpoint string_eqb (a b : jsstring) : bool :=
  match a, b with
  | [], [] => true
  | x :: a', y :: b' => (x =? y) && string_eqb a' b'
  | _, _ => false
  end.

(** [ToUint32] and [ToInt32] on integral numbers. *)
Definition ToUint32 (x : Z) : Z := x mod 2 ^ 32.

Definition ToInt32 (x : Z) : Z :=
  let u := ToUint32 x in
  if 2 ^ 31 <=? u then u - 2 ^ 32 else u.

(** [a ^ b]: both operands through [ToInt32], signed 32-bit result. *)
Definition bxor (a b : Z) : Z := ToInt32 (Z.lxor (ToInt32 a) (ToInt32 b)).

(** [a & b]. *)
Definition band (a b : Z) : Z := ToInt32 (Z.land (ToInt32 a) (ToInt32 b)).

(** [a >>> n]: [ToUint32 a] shifted right by [n mod 32], unsigned result. *)
Definition ushr (a n : Z) : Z := Z.shiftr (ToUint32 a) (ToUint32 n mod 32).

(** [Math.imul(a, b)]: the low 32 bits of the product, read as signed. *)
Definition imul (a b : Z) : Z := ToInt32 (ToUint32 a * ToUint32 b).

(** [Number.prototype.toString()] on a non-negative integer below 10^21:
    its decimal digits, with no sign, exponent or leading zero. *)
Definition Number_toString (n : Z) : jsstring :=
  lit (NilZero.string_of_uint (N.to_uint (Z.to_N n))).

(** [Array.prototype.includes] on an array of strings. *)
Definition includes (l : list jsstring) (x : jsstring) : bool :=
  existsb (string_eqb x) l.

End JS.

Import JS.

(** ** The hash (lines 7-20) *)

(** The [for] loop of lines 9-13, by recursion on the remaining code units. *)
Fixpoint cyrb53_loop (str : jsstring) (h1 h2 : Z) : Z * Z :=
  match str with
  | [] => (h1, h2)
  | ch :: rest =>
      cyrb53_loop rest
        (imul (bxor h1 ch) 2654435761)
        (imul (bxor h2 ch) 1597334677)
  end.

(** Lines 14-17. *)
Definition cyrb53_mix (h1 h2 : Z) : Z * Z :=
  let h1 := imul (bxor h1 (ushr h1 16)) 2246822507 in
  let h1 := bxor h1 (imul (bxor h2 (ushr h2 13)) 3266489909) in
  let h2 := imul (bxor h2 (ushr h2 16)) 2246822507 in
  let h2 := bxor h2 (imul (bxor h1 (ushr h1 13)) 3266489909) in
  (h1, h2).

(** Line 19, before [toString].  The sum is below 2^53 (see
    [cyrb53_number_range]), so the double-precision product and sum of the
    source are exact and are written here over [Z]. *)
Definition cyrb53_combine (h1 h2 : Z) : Z :=
  4294967296 * band 2097151 h2 + ushr h1 0.

Definition cyrb53_number (str : jsstring) (seed : Z) : Z :=
  let h1 := bxor 0xdeadbeef seed in
  let h2 := bxor 0x41c6ce57 seed in
  let '(h1, h2) := cyrb53_loop str h1 h2 in
  let '(h1, h2) := cyrb53_mix h1 h2 in
  cyrb53_combine h1 h2.

Definition cyrb53 (str : jsstring) (seed : Z) : jsstring :=
  Number_toString (cyrb53_number str seed).

(** The default parameter [seed = 0]. *)
Definition cyrb53_default (str : jsstring) : jsstring := cyrb53 str 0.

(** ** Values, errors and the process-wide state *)

(** The JavaScript values the entry points can be handed.  [Object] is a
    plain data object (the handles [{id, type}] and the instances
    [{ph_obj, orig_image}] the library builds are of this kind); [Scene] is
    a scene object created by the engine and [PhObj] a game object it
    returned; [Function] is a caller-supplied function, opaque here. *)
Inductive value : Type :=
| Undefined
| Null
| Boolean (b : bool)
| Number (x : float)
| String (s : jsstring)
| Function
| Scene (name : jsstring)
| PhObj (serial : nat)
| Object (fields : list (string * value)).

Definition typeof (v : value) : string :=
  match v with
  | Undefined => "undefined"
  | Null => "object"
  | Boolean _ => "boolean"
  | Number _ => "number"
  | String _ => "string"
  | Function => "function"
  | Scene _ | PhObj _ | Object _ => "object"
  end.

(** [v === "..."] against a string literal. *)
Definition strict_eq_string (v : value) (s : jsstring) : bool :=
  match v with
  | String t => string_eqb t s
  | _ => false
  end.

Inductive error : Type :=
| Error (message : jsstring)      (* [throw new Error(message)] *)
| TypeError.                      (* raised by the runtime itself *)

(** A call on an object that is not the library's own: the receiver, the
    member path and the arguments, in program order. *)
Inductive event : Type :=
| Call (receiver : value) (member : list string) (args : list value).

Record world : Type := mkWorld {
  list_images_id : list jsstring;   (* [PP.assets.list_images_id] *)
  console_warn : list jsstring;     (* lines sent to [console.warn] *)
  calls : list event                (* calls that left the library *)
}.

(** [PP.assets = { list_images_id : [] }] at start-up (lines 49-51). *)
Definition initial_world : world := mkWorld [] [] [].

Inductive completion (A : Type) : Type :=
| Normal (a : A)
| Throw (e : error).
Arguments Normal {A} a.
Arguments Throw {A} e.

(** Statements: run in a world, complete normally or abruptly, leave a world. *)
Definition M (A : Type) : Type := world -> completion A * world.

Definition ret {A} (a : A) : M A := fun w => (Normal a, w).
Definition throw {A} (e : error) : M A := fun w => (Throw e, w).
Definition bind {A B} (c : M A) (k : A -> M B) : M B :=
  fun w =>
    match c w with
    | (Normal a, w') => k a w'
    | (Throw e, w') => (Throw e, w')
    end.

Notation "x <- c ;; k" := (bind c (fun x => k))
  (at level 61, c at next level, right associativity).
Notation "c ;; k" := (bind c (fun _ => k))
  (at level 61, right associativity).

Definition registry : M (list jsstring) := fun w => (Normal (list_images_id w), w).

Definition push_id (x : jsstring) : M unit :=
  fun w => (Normal tt,
            mkWorld (list_images_id w ++ [x]) (console_warn w) (calls w)).

Definition warn (line : jsstring) : M unit :=
  fun w => (Normal tt,
            mkWorld (list_images_id w) (console_warn w ++ [line]) (calls w)).

Definition emit (e : event) : M unit :=
  fun w => (Normal tt,
            mkWorld (list_images_id w) (console_warn w) (calls w ++ [e])).

Definition fresh_serial : M nat := fun w => (Normal (List.length (calls w)), w).

(** Property read [v.k]. *)
Fixpoint lookup (k : string) (fields : list (string * value)) : value :=
  match fields with
  | [] => Undefined
  | (k', v) :: rest => if String.eqb k k' then v else lookup k rest
  end.

Definition get (v : value) (k : string) : M value :=
  match v with
  | Undefined | Null => throw TypeError
  | Object fields => ret (lookup k fields)
  | _ => ret Undefined
  end.

Fixpoint member_eqb (a b : list string) : bool :=
  match a, b with
  | [], [] => true
  | x :: a', y :: b' => String.eqb x y && member_eqb a' b'
  | _, _ => false
  end.

(** The value found by reading [v.m1.m2...], or [None] where a read goes
    through [undefined] or [null] and the runtime throws.  Members other
    than a data object's own fields read as [undefined]. *)
Fixpoint resolve (v : value) (member : list string) : option value :=
  match member with
  | [] => Some v
  | m :: rest =>
      match v with
      | Undefined | Null => None
      | Object fields => resolve (lookup m fields) rest
      | _ => resolve Undefined rest
      end
  end.

(** Method call [recv.m1.m2(args)].  An engine scene answers the loader
    and factory members the library uses, an engine game object answers
    [setOrigin]; the call is recorded and carried out by the engine.  On
    any other receiver the member path is read field by field and the
    callee must be a function: the call is recorded and its result is
    taken to be [undefined].  Everything else is the runtime's
    [TypeError]. *)
Definition invoke (recv : value) (member : list string) (args : list value)
  : M value :=
  match recv with
  | Scene _ =>
      if member_eqb member ["load"; "image"]%string
         || member_eqb member ["load"; "spritesheet"]%string
      then emit (Call recv member args) ;; ret Undefined
      else if member_eqb member ["add"; "image"]%string
              || member_eqb member ["add"; "sprite"]%string
      then n <- fresh_serial ;;
           emit (Call recv member args) ;; ret (PhObj n)
      else throw TypeError
  | PhObj _ =>
      if member_eqb member ["setOrigin"]%string
      then emit (Call recv member args) ;; ret recv
      else throw TypeError
  | _ =>
      match resolve recv member with
      | Some Function => emit (Call recv member args) ;; ret Undefined
      | _ => throw TypeError
      end
  end.

(** The string behind a value that passed [typeof v === "string"]. *)
Definition as_string (v : value) : M jsstring :=
  match v with
  | String s => ret s
  | _ => throw TypeError
  end.

(** ** The library (lines 28-84 and 244-360) *)

Module PP.

Module debug.

(** Lines 79-83. *)
Definition assert (condition : bool) (message : string) : M unit :=
  if negb condition
  then throw (Error (lit "Assertion failed: " ++ lit message))
  else ret tt.

End debug.

Module assets.

(** The handle literal [{id: url_hash, type: tag}]. *)
Definition handle (url_hash : jsstring) (tag : string) : value :=
  Object [("id"%string, String url_hash); ("type"%string, String (lit tag))].

Definition duplicate_warning (image_path : jsstring) : jsstring :=
  lit "WARNING: you are trying to load multiple times the same image/spritesheet ("
    ++ image_path ++ lit "). Aborting this load request.".

Definition is_number (v : value) : bool := String.eqb (typeof v) "number".

(** The comparisons [0 <= x] and [x <= 1] of lines 294-295, on doubles;
    a non-number never reaches them. *)
Definition between_0_and_1 (v : value) : bool :=
  match v with
  | Number x => PrimFloat.leb 0%float x && PrimFloat.leb x 1%float
  | _ => false
  end.

Module image.

(** Lines 254-269.  [path] is [image_path] itself, a string once the
    second assertion has passed. *)
Definition load (scene image_path : value) : M value :=
  debug.assert (String.eqb (typeof scene) "object")
    "Parameter error: scene should be a scene object." ;;
  debug.assert (String.eqb (typeof image_path) "string")
    "Parameter error: image_path should be a string." ;;
  path <- as_string image_path ;;
  let url_hash := cyrb53_default path in
  ids <- registry ;;
  if includes ids url_hash then
    warn (duplicate_warning path) ;;
    ret (handle url_hash "image")
  else
    push_id url_hash ;;
    invoke scene ["load"; "image"]%string [String url_hash; image_path] ;;
    ret (handle url_hash "image").

(** Lines 284-302. *)
Definition add (scene image x y pivot_x pivot_y : value) : M value :=
  debug.assert (String.eqb (typeof scene) "object")
    "Parameter error: scene should be a scene object." ;;
  debug.assert (String.eqb (typeof image) "object")
    "Parameter error: image should be an object." ;;
  image_id <- get image "id" ;;
  debug.assert (String.eqb (typeof image_id) "string")
    "Parameter error: image is not a valid image object." ;;
  image_type <- get image "type" ;;
  debug.assert (strict_eq_string image_type (lit "image"))
    "Parameter error: image is an object but not an image." ;;
  debug.assert (is_number x) "Parameter error: x should be a number." ;;
  debug.assert (is_number y) "Parameter error: y should be a number." ;;
  debug.assert (is_number pivot_x)
    "Parameter error: pivot_x should be a number." ;;
  debug.assert (is_number pivot_y)
    "Parameter error: pivot_y should be a number." ;;
  debug.assert (between_0_and_1 pivot_x)
    "Parameter error: pivot_x must be between 0 and 1." ;;
  debug.assert (between_0_and_1 pivot_y)
    "Parameter error: pivot_y must be between 0 and 1." ;;
  image_id' <- get image "id" ;;
  temp_image <- invoke scene ["add"; "image"]%string [x; y; image_id'] ;;
  invoke temp_image ["setOrigin"]%string [pivot_x; pivot_y] ;;
  ret (Object [("ph_obj"%string, temp_image);
               ("orig_image"%string, image)]).

End image.

Module sprite.

(** Lines 313-332. *)
Definition load_spritesheet
  (scene image_path frame_width frame_height start_frame end_frame : value)
  : M value :=
  debug.assert (String.eqb (typeof scene) "object")
    "Parameter error: scene should be a scene object." ;;
  debug.assert (String.eqb (typeof image_path) "string")
    "Parameter error: image_path should be a string." ;;
  debug.assert (is_number frame_width)
    "Parameter error: frame_width should be a number." ;;
  debug.assert (is_number frame_height)
    "Parameter error: frame_height should be a number." ;;
  debug.assert (is_number start_frame)
    "Parameter error: start_frame should be a number." ;;
  debug.assert (is_number end_frame)
    "Parameter error: end_frame should be a number." ;;
  path <- as_string image_path ;;
  let url_hash := cyrb53_default path in
  ids <- registry ;;
  if includes ids url_hash then
    warn (duplicate_warning path) ;;
    ret (handle url_hash "sprite")
  else
    push_id url_hash ;;
    invoke scene ["load"; "spritesheet"]%string
      [String url_hash; image_path;
       Object [("frameWidth"%string, frame_width);
               ("frameHeight"%string, frame_height);
               ("startFrame"%string, start_frame);
               ("endFrame"%string, end_frame)]] ;;
    ret (handle url_hash "sprite").

(** Lines 346-360.  The empty array of line 359 is an object without
    fields here. *)
Definition add (scene sprite x y pivot_x pivot_y : value) : M value :=
  debug.assert (String.eqb (typeof scene) "object")
    "Parameter error: scene should be a scene object." ;;
  debug.assert (String.eqb (typeof sprite) "object")
    "Parameter error: sprite should be an object." ;;
  sprite_id <- get sprite "id" ;;
  debug.assert (String.eqb (typeof sprite_id) "string")
    "Parameter error: sprite is not a valid sprite object." ;;
  sprite_type <- get sprite "type" ;;
  debug.assert (strict_eq_string sprite_type (lit "sprite"))
    "Parameter error: sprite is an object but not a sprite." ;;
  debug.assert (is_number x) "Parameter error: x should be a number." ;;
  debug.assert (is_number y) "Parameter error: y should be a number." ;;
  debug.assert (is_number pivot_x)
    "Parameter error: pivot_x should be a number." ;;
  debug.assert (is_number pivot_y)
    "Parameter error: pivot_y should be a number." ;;
  sprite_id' <- get sprite "id" ;;
  temp_image <- invoke scene ["add"; "sprite"]%string [x; y; sprite_id'] ;;
  invoke temp_image ["setOrigin"]%string [pivot_x; pivot_y] ;;
  ret (Object [("ph_obj"%string, temp_image);
               ("orig_sprite"%string, sprite);
               ("list_of_animations"%string, Object [])]).

End sprite.

End assets.

End PP.

(** ** The hash as the specification words it *)

Module Spec.

Section TwoLaneHash.

(** The fixed constants: lane initialisers, per-character multipliers,
    and the shift distances and multipliers of the final mixing. *)
Variables (init1 init2 mult1 mult2 : Z).
Variables (shift_a shift_b fmult_a fmult_b : Z).

(** A lane is an unsigned 32-bit number. *)
Definition word (x : Z) : Z := x mod 2 ^ 32.

(** Multiplication of lanes, 32 bits wide. *)
Definition mul32 (x y : Z) : Z := word (x * y).

(** Two accumulators initialised from fixed constants XORed with [seed]. *)
Definition start (seed : Z) : Z * Z :=
  (word (Z.lxor init1 seed), word (Z.lxor init2 seed)).

(** Each advanced per character: XOR with the character code, then
    multiplication by the lane's constant. *)
Definition advance (lanes : Z * Z) (ch : Z) : Z * Z :=
  (mul32 (Z.lxor (fst lanes) ch) mult1, mul32 (Z.lxor (snd lanes) ch) mult2).

Definition absorb (str : list Z) (lanes : Z * Z) : Z * Z :=
  fold_left advance str lanes.

(** One XOR-shift-multiply of a lane. *)
Definition xsm (x shift m : Z) : Z := mul32 (Z.lxor x (Z.shiftr x shift)) m.

(** Two rounds of cross-mixing: each lane is mixed with itself and
    XORed with a mix of the other lane. *)
Definition finalize (lanes : Z * Z) : Z * Z :=
  let a := Z.lxor (xsm (fst lanes) shift_a fmult_a)
                  (xsm (snd lanes) shift_b fmult_b) in
  let b := Z.lxor (xsm (snd lanes) shift_a fmult_a)
                  (xsm a shift_b fmult_b) in
  (a, b).

(** The lower 21 bits of the second lane as the high bits, the whole
    unsigned first lane as the low bits. *)
Definition combine (lanes : Z * Z) : Z :=
  (snd lanes mod 2 ^ 21) * 2 ^ 32 + fst lanes.

Definition hash (str : list Z) (seed : Z) : Z :=
  combine (finalize (absorb str (start seed))).

End TwoLaneHash.

(** The algorithm at the constants of the source, in decimal. *)
Definition computeId (path : jsstring) (seed : Z) : jsstring :=
  Number_toString
    (hash 0xdeadbeef 0x41c6ce57 2654435761 1597334677
          16 13 2246822507 3266489909 path seed).

End Spec.

(** ** Reading an identifier back, and sequences of calls *)

(** The characters of a string whose code units are all below 256. *)
Fixpoint unlit (s : jsstring) : option string :=
  match s with
  | [] => Some EmptyString
  | c :: rest =>
      if (0 <=? c) && (c <? 256) then
        match unlit rest with
        | Some t => Some (String.String (ascii_of_N (Z.to_N c)) t)
        | None => None
        end
      else None
  end.

(** A non-empty string of decimal digits read as a non-negative integer;
    anything else is rejected. *)
Definition parse_decimal (s : jsstring) : option Z :=
  match unlit s with
  | Some t =>
      match NilZero.uint_of_string t with
      | Some d => Some (Z.of_N (N.of_uint d))
      | None => None
      end
  | None => None
  end.

(** The asset entry points, as calls a program can make. *)
Inductive op : Type :=
| image_load (scene image_path : value)
| image_add (scene image x y pivot_x pivot_y : value)
| sprite_load_spritesheet
    (scene image_path frame_width frame_height start_frame end_frame : value)
| sprite_add (scene sprite x y pivot_x pivot_y : value).

Definition run (o : op) : M value :=
  match o with
  | image_load scene image_path => PP.assets.image.load scene image_path
  | image_add scene image x y px py =>
      PP.assets.image.add scene image x y px py
  | sprite_load_spritesheet scene image_path fw fh sf ef =>
      PP.assets.sprite.load_spritesheet scene image_path fw fh sf ef
  | sprite_add scene sprite x y px py =>
      PP.assets.sprite.add scene sprite x y px py
  end.

(** A program: the calls one after the other on the shared state.  A call
    that throws ends that call only; the state it left is what the next
    call finds. *)
Fixpoint run_all (os : list op) (w : world) : world :=
  match os with
  | [] => w
  | o :: rest => run_all rest (snd (run o w))
  end.

(** The two worlds a loader can leave behind, and the frame options of
    line 330. *)
Definition after_push (w : world) (x : jsstring) (e : event) : world :=
  mkWorld (list_images_id w ++ [x]) (console_warn w) (calls w ++ [e]).

Definition after_warn (w : world) (line : jsstring) : world :=
  mkWorld (list_images_id w) (console_warn w ++ [line]) (calls w).

Definition sheet_options (fw fh sf ef : value) : value :=
  Object [("frameWidth"%string, fw); ("frameHeight"%string, fh);
          ("startFrame"%string, sf); ("endFrame"%string, ef)].

(** What a statement may do to the Registry. *)
Definition keeps_registry {A} (c : M A) : Prop :=
  forall w, list_images_id (snd (c w)) = list_images_id w.

Definition adds_at_most_one {A} (c : M A) : Prop :=
  forall w,
    list_images_id (snd (c w)) = list_images_id w
    \/ exists id,
         includes (list_images_id w) id = false
         /\ list_images_id (snd (c w)) = list_images_id w ++ [id].

(** ** Reading the calls and the engine log back *)

(** The string paths a program hands to the two loaders, in call order. *)
Fixpoint loaded_paths (os : list op) : list jsstring :=
  match os with
  | [] => []
  | image_load _ (String p) :: rest => p :: loaded_paths rest
  | sprite_load_spritesheet _ (String p) _ _ _ _ :: rest =>
      p :: loaded_paths rest
  | _ :: rest => loaded_paths rest
  end.

(** The keys the engine's loader was asked for: the first argument of
    every recorded [load.image] and [load.spritesheet] call. *)
Definition load_key (e : event) : list jsstring :=
  match e with
  | Call _ member (String key :: _) =>
      if member_eqb member ["load"; "image"]%string
         || member_eqb member ["load"; "spritesheet"]%string
      then [key] else []
  | _ => []
  end.

Definition engine_load_keys (es : list event) : list jsstring :=
  flat_map load_key es.

Definition is_scene (v : value) : bool :=
  match v with Scene _ => true | _ => false end.

(** The call is made on a scene object of the engine. *)
Definition on_engine_scene (o : op) : bool :=
  match o with
  | image_load scene _ => is_scene scene
  | image_add scene _ _ _ _ _ => is_scene scene
  | sprite_load_spritesheet scene _ _ _ _ _ => is_scene scene
  | sprite_add scene _ _ _ _ _ => is_scene scene
  end.

(** What a statement may do to the whole state, and how it may fail. *)
Definition keeps_world {A} (c : M A) : Prop := forall w, snd (c w) = w.

Definition never_errors {A} (c : M A) : Prop :=
  forall w m, fst (c w) <> Throw (Error m).

Definition assertion_atomic {A} (c : M A) : Prop :=
  forall w m, fst (c w) = Throw (Error m) -> snd (c w) = w.

(** The statement leaves the Registry alone or appends [id], then absent. *)
Definition adds_only {A} (id : jsstring) (c : M A) : Prop :=
  forall w,
    list_images_id (snd (c w)) = list_images_id w
    \/ (includes (list_images_id w) id = false
        /\ list_images_id (snd (c w)) = list_images_id w ++ [id]).

(** The statement asks the engine's loader for nothing. *)
Definition keeps_load_keys {A} (c : M A) : Prop :=
  forall w, engine_load_keys (calls (snd (c w))) = engine_load_keys (calls w).

Definition is_load_member (member : list string) : bool :=
  member_eqb member ["load"; "image"]%string
  || member_eqb member ["load"; "spritesheet"]%string.

(** The call is a load request that passes every assertion of its
    loader. *)
Definition accepted_load (o : op) : bool :=
  match o with
  | image_load scene image_path =>
      String.eqb (typeof scene) "object"
      && String.eqb (typeof image_path) "string"
  | sprite_load_spritesheet scene image_path fw fh sf ef =>
      String.eqb (typeof scene) "object"
      && String.eqb (typeof image_path) "string"
      && PP.assets.is_number fw && PP.assets.is_number fh
      && PP.assets.is_number sf && PP.assets.is_number ef
  | _ => false
  end.

(** Registered ids and warning lines, counted together. *)
Definition accounted (w : world) : nat :=
  (List.length (list_images_id w) + List.length (console_warn w))%nat.

Definition keeps_accounted {A} (c : M A) : Prop :=
  forall w, accounted (snd (c w)) = accounted w.

(** ** Scenes and the game object (lines 28-42 and 99-241) *)

(** [ToBoolean], as [if (!condition)] applies it. *)
Definition ToBoolean (v : value) : bool :=
  match v with
  | Undefined | Null => false
  | Boolean b => b
  | Number x => negb (PrimFloat.eqb x 0%float || PrimFloat.is_nan x)
  | String s => negb (string_eqb s [])
  | _ => true
  end.

(** [PP.debug.assert] with a message computed at run time (lines 133, 163,
    188, 217). *)
Definition assert_message (condition : bool) (message : jsstring) : M unit :=
  if negb condition
  then throw (Error (lit "Assertion failed: " ++ message))
  else ret tt.

(** What the library asks of the engine outside a scene's loader and
    factory: the two constructors and the scene manager of the game. *)
Inductive engine_event : Type :=
| NewScene (name : jsstring)
| NewGame (type_ width height backgroundColor : value)
    (scene : option (list value)) (pixelArt : bool) (parent : value)
| SceneStart (name : value)
| SceneStop
| SceneLaunch (name : value)
| SceneResume (name : value).

(** The members of [PP.game] and [PP.scenes] beside the asset state; a
    member that was never assigned is [None] or [Undefined].  The game
    object of the engine is known by the position of its construction in
    the log. *)
Record app : Type := mkApp {
  assets : world;
  scenes_list : option (list value);          (* [PP.scenes.list] *)
  scenes_list_names : option (list jsstring); (* [PP.scenes.list_names] *)
  game_config : value;                        (* [PP.game.config] *)
  game_ph_obj : option nat;                   (* [PP.game.ph_obj] *)
  current_main_scene_name : value;  (* [PP.game.current_main_scene_name] *)
  current_scene_name : value;       (* [PP.game.current_scene_name] *)
  in_overlay_mode : value;          (* [PP.scenes.in_overlay_mode] *)
  engine : list engine_event
}.

(** [PP.game = {}], [PP.scenes = {}] and the asset state at start-up. *)
Definition initial_app : app :=
  mkApp initial_world None None Undefined None Undefined Undefined Undefined [].

Definition G (A : Type) : Type := app -> completion A * app.

Definition gret {A} (x : A) : G A := fun a => (Normal x, a).
Definition gthrow {A} (e : error) : G A := fun a => (Throw e, a).
Definition gbind {A B} (c : G A) (k : A -> G B) : G B :=
  fun a =>
    match c a with
    | (Normal x, a') => k x a'
    | (Throw e, a') => (Throw e, a')
    end.

Declare Scope app_scope.
Delimit Scope app_scope with app.
Notation "x <- c ;; k" := (gbind c (fun x => k))
  (at level 61, c at next level, right associativity) : app_scope.
Notation "c ;; k" := (gbind c (fun _ => k))
  (at level 61, right associativity) : app_scope.

Definition with_assets (a : app) (w : world) : app :=
  mkApp w (scenes_list a) (scenes_list_names a) (game_config a)
    (game_ph_obj a) (current_main_scene_name a) (current_scene_name a)
    (in_overlay_mode a) (engine a).

(** A statement on the asset state, run inside the whole state. *)
Definition lift {A} (c : M A) : G A :=
  fun a => (fst (c (assets a)), with_assets a (snd (c (assets a)))).

Definition read {A} (f : app -> A) : G A := fun a => (Normal (f a), a).
Definition modify (f : app -> app) : G unit := fun a => (Normal tt, f a).

Definition init_lists (a : app) : app :=
  mkApp (assets a) (Some []) (Some []) (game_config a) (game_ph_obj a)
    (current_main_scene_name a) (current_scene_name a) (in_overlay_mode a)
    (engine a).

Definition set_config (config : value) (a : app) : app :=
  mkApp (assets a) (scenes_list a) (scenes_list_names a) config
    (game_ph_obj a) (current_main_scene_name a) (current_scene_name a)
    (in_overlay_mode a) (engine a).

Definition set_main_scene (name : value) (a : app) : app :=
  mkApp (assets a) (scenes_list a) (scenes_list_names a) (game_config a)
    (game_ph_obj a) name (current_scene_name a) (in_overlay_mode a)
    (engine a).

Definition set_overlay (flag : value) (a : app) : app :=
  mkApp (assets a) (scenes_list a) (scenes_list_names a) (game_config a)
    (game_ph_obj a) (current_main_scene_name a) (current_scene_name a)
    flag (engine a).

Definition log (e : engine_event) : G unit :=
  modify (fun a =>
    mkApp (assets a) (scenes_list a) (scenes_list_names a) (game_config a)
      (game_ph_obj a) (current_main_scene_name a) (current_scene_name a)
      (in_overlay_mode a) (engine a ++ [e])).

(** [PP.scenes.list_names], or the [TypeError] of calling a method of
    [undefined]. *)
Definition list_names : G (list jsstring) :=
  fun a =>
    match scenes_list_names a with
    | Some names => (Normal names, a)
    | None => (Throw TypeError, a)
    end.

(** [PP.scenes.list_names.push(name)]. *)
Definition push_name (name : jsstring) : G unit :=
  fun a =>
    match scenes_list_names a with
    | Some names =>
        (Normal tt,
         mkApp (assets a) (scenes_list a) (Some (names ++ [name]))
           (game_config a) (game_ph_obj a) (current_main_scene_name a)
           (current_scene_name a) (in_overlay_mode a) (engine a))
    | None => (Throw TypeError, a)
    end.

(** [PP.scenes.list.push(scene)]. *)
Definition push_scene (scene : value) : G unit :=
  fun a =>
    match scenes_list a with
    | Some scenes =>
        (Normal tt,
         mkApp (assets a) (Some (scenes ++ [scene])) (scenes_list_names a)
           (game_config a) (game_ph_obj a) (current_main_scene_name a)
           (current_scene_name a) (in_overlay_mode a) (engine a))
    | None => (Throw TypeError, a)
    end.

(** [PP.game.ph_obj = new Phaser.Game(...)]. *)
Definition new_game (e : engine_event) : G unit :=
  fun a =>
    (Normal tt,
     mkApp (assets a) (scenes_list a) (scenes_list_names a) (game_config a)
       (Some (List.length (engine a))) (current_main_scene_name a)
       (current_scene_name a) (in_overlay_mode a) (engine a ++ [e])).

(** A call [PP.game.ph_obj.scene.m(...)]: the runtime's [TypeError] while
    no game object exists. *)
Definition scene_manager (e : engine_event) : G unit :=
  fun a =>
    match game_ph_obj a with
    | Some _ => log e a
    | None => (Throw TypeError, a)
    end.

(** [x > 0] on a number (line 104). *)
Definition positive_number (v : value) : bool :=
  match v with
  | Number x => PrimFloat.ltb 0%float x
  | _ => false
  end.

Definition is_defined {A} (o : option A) : bool :=
  match o with Some _ => true | None => false end.

Local Open Scope app_scope.

Module PP_game.

(** Lines 99-122.  [Phaser_AUTO] is the engine's constant [Phaser.AUTO]. *)
Definition create (Phaser_AUTO config : value) : G unit :=
  canvas_width <- lift (get config "canvas_width") ;;
  lift (PP.debug.assert (String.eqb (typeof canvas_width) "number")
    "Parameter error: config.canvas_width is not a number.") ;;
  canvas_height <- lift (get config "canvas_height") ;;
  lift (PP.debug.assert (String.eqb (typeof canvas_height) "number")
    "Parameter error: config.canvas_height is not a number.") ;;
  canvas_id <- lift (get config "canvas_id") ;;
  lift (PP.debug.assert (String.eqb (typeof canvas_id) "string")
    "Parameter error: config.canvas_id is not a string.") ;;
  canvas_width' <- lift (get config "canvas_width") ;;
  lift (PP.debug.assert (positive_number canvas_width')
    "Parameter error: config.canvas_width is not a positive number.") ;;
  scenes <- read scenes_list ;;
  lift (PP.debug.assert (is_defined scenes)
    "You need to add at least one scene!") ;;
  modify (set_config config) ;;
  width <- lift (get config "canvas_width") ;;
  height <- lift (get config "canvas_height") ;;
  background_color <- lift (get config "background_color") ;;
  scene <- read scenes_list ;;
  parent <- lift (get config "canvas_id") ;;
  new_game (NewGame Phaser_AUTO width height background_color scene true parent).

(** Lines 130-136. *)
Definition start (scene_name : value) : G unit :=
  lift (PP.debug.assert (String.eqb (typeof scene_name) "string")
    "Parameter error: scene_name is not a string.") ;;
  names <- list_names ;;
  name <- lift (as_string scene_name) ;;
  lift (assert_message (includes names name)
    (lit "Trying to start a non-existent scene: " ++ name)) ;;
  scene_manager (SceneStart scene_name).

End PP_game.

Module PP_scenes.

(** Lines 148-177.  The four callbacks end up in closures stored on the
    new scene object, which the engine alone calls. *)
Definition add
  (scene_name preload_function create_function update_function
     destroy_function : value) : G unit :=
  lift (PP.debug.assert (String.eqb (typeof scene_name) "string")
    "Parameter error: scene_name is not a string.") ;;
  lift (PP.debug.assert (String.eqb (typeof preload_function) "function")
    "Parameter error: load_function is not a function.") ;;
  lift (PP.debug.assert (String.eqb (typeof create_function) "function")
    "Parameter error: create_function is not a function.") ;;
  lift (PP.debug.assert (String.eqb (typeof update_function) "function")
    "Parameter error: update_function is not a function.") ;;
  lift (PP.debug.assert (String.eqb (typeof destroy_function) "function")
    "Parameter error: destroy_function is not a function.") ;;
  scenes <- read scenes_list ;;
  (if is_defined scenes then gret tt else modify init_lists) ;;
  names <- list_names ;;
  name <- lift (as_string scene_name) ;;
  lift (assert_message (negb (includes names name))
    (lit "Duplicated scene name: " ++ name)) ;;
  push_name name ;;
  log (NewScene name) ;;
  push_scene (Scene name).

(** Lines 185-196. *)
Definition start (scene_name : value) : G unit :=
  lift (PP.debug.assert (String.eqb (typeof scene_name) "string")
    "Parameter error: scene_name is not a string.") ;;
  names <- list_names ;;
  name <- lift (as_string scene_name) ;;
  lift (assert_message (includes names name)
    (lit "No scene named '" ++ name ++ lit "' exist.")) ;;
  modify (set_main_scene scene_name) ;;
  scene_manager (SceneStart scene_name).

(** Lines 203-206. *)
Definition stop : G unit :=
  current <- read current_scene_name ;;
  lift (PP.debug.assert (ToBoolean current)
    "Well, you should start a scene before stopping it!") ;;
  scene_manager SceneStop.

(** Lines 215-226. *)
Definition start_overlay (scene_name : value) : G unit :=
  lift (PP.debug.assert (String.eqb (typeof scene_name) "string")
    "Parameter error: scene_name is not a string.") ;;
  names <- list_names ;;
  name <- lift (as_string scene_name) ;;
  lift (assert_message (includes names name)
    (lit "No scene named '" ++ name ++ lit "' exist.")) ;;
  current <- read current_scene_name ;;
  lift (PP.debug.assert (ToBoolean current)
    "A non-overlay scene must be previously started.") ;;
  overlay <- read in_overlay_mode ;;
  lift (PP.debug.assert (ToBoolean overlay)
    "Multiple overlays are not allowed, you must stop the previous one.") ;;
  modify (set_overlay (Boolean true)) ;;
  scene_manager (SceneLaunch scene_name).

(** Lines 233-241. *)
Definition stop_overlay : G unit :=
  current <- read current_scene_name ;;
  lift (PP.debug.assert (ToBoolean current)
    "This should not occur: the main scene name does not exist.") ;;
  modify (set_overlay (Boolean false)) ;;
  current' <- read current_scene_name ;;
  scene_manager (SceneResume current') ;;
  scene_manager SceneStop.

End PP_scenes.

Local Close Scope app_scope.

(** Every entry point modelled, as a call a program can make. *)
Inductive gop : Type :=
| game_create (config : value)
| game_start (scene_name : value)
| scenes_add (scene_name preload_function create_function update_function
                destroy_function : value)
| scenes_start (scene_name : value)
| scenes_stop
| scenes_start_overlay (scene_name : value)
| scenes_stop_overlay
| asset (o : op).

Definition grun (Phaser_AUTO : value) (o : gop) : G unit :=
  match o with
  | game_create config => PP_game.create Phaser_AUTO config
  | game_start scene_name => PP_game.start scene_name
  | scenes_add n f1 f2 f3 f4 => PP_scenes.add n f1 f2 f3 f4
  | scenes_start scene_name => PP_scenes.start scene_name
  | scenes_stop => PP_scenes.stop
  | scenes_start_overlay scene_name => PP_scenes.start_overlay scene_name
  | scenes_stop_overlay => PP_scenes.stop_overlay
  | asset o => gbind (lift (run o)) (fun _ => gret tt)
  end.

Fixpoint grun_all (Phaser_AUTO : value) (os : list gop) (a : app) : app :=
  match os with
  | [] => a
  | o :: rest => grun_all Phaser_AUTO rest (snd (grun Phaser_AUTO o a))
  end.

(** The two scene lists are both unassigned, or hold the same non-empty
    sequence of pairwise different names, one scene object per name. *)
Definition scenes_in_step (a : app) : Prop :=
  match scenes_list a, scenes_list_names a with
  | None, None => True
  | Some scenes, Some names =>
      names <> [] /\ NoDup names /\ scenes = map Scene names
  | _, _ => False
  end.

(** No function has assigned [PP.game.current_scene_name] or
    [PP.scenes.in_overlay_mode]. *)
Definition never_started (a : app) : Prop :=
  current_scene_name a = Undefined /\ in_overlay_mode a = Undefined.

(** What a statement on the whole state leaves alone. *)
Definition gpure {A} (c : G A) : Prop := forall a, snd (c a) = a.

Definition keeps_assets {A} (c : G A) : Prop :=
  forall a, assets (snd (c a)) = assets a.

Definition keeps_scene_state {A} (c : G A) : Prop :=
  forall a,
    scenes_list (snd (c a)) = scenes_list a
    /\ scenes_list_names (snd (c a)) = scenes_list_names a
    /\ current_scene_name (snd (c a)) = current_scene_name a
    /\ in_overlay_mode (snd (c a)) = in_overlay_mode a.

(** The call is not one of the asset entry points. *)
Definition is_scene_call (o : gop) : bool :=
  match o with asset _ => false | _ => true end.

(** The names registered so far. *)
Definition registered_names (a : app) : list jsstring :=
  match scenes_list_names a with Some names => names | None => [] end.

(** A configuration object [PP.game.create] accepts: a positive number
    for the width, a number for the height, a string for the canvas id. *)
Definition config_ok (config : value) : bool :=
  match config with
  | Object fields =>
      positive_number (lookup "canvas_width" fields)
      && String.eqb (typeof (lookup "canvas_height" fields)) "number"
      && String.eqb (typeof (lookup "canvas_id" fields)) "string"
  | _ => false
  end.

(** ** 32-bit arithmetic *)

Lemma ToUint32_range (x : Z) : 0 <= ToUint32 x < 2 ^ 32.
Proof. unfold ToUint32. apply Z.mod_pos_bound. lia. Qed.

Lemma ToInt32_range (x : Z) : - 2 ^ 31 <= ToInt32 x < 2 ^ 31.
Proof.
  unfold ToInt32. pose proof (ToUint32_range x) as H.
  destruct (2 ^ 31 <=? ToUint32 x) eqn:E;
    [apply Z.leb_le in E | apply Z.leb_gt in E]; lia.
Qed.

Lemma ToUint32_small (x : Z) : 0 <= x < 2 ^ 32 -> ToUint32 x = x.
Proof. intros H. unfold ToUint32. apply Z.mod_small. exact H. Qed.

Lemma ToUint32_idem (x : Z) : ToUint32 (ToUint32 x) = ToUint32 x.
Proof. apply ToUint32_small, ToUint32_range. Qed.

Lemma ToUint32_ToInt32 (x : Z) : ToUint32 (ToInt32 x) = ToUint32 x.
Proof.
  unfold ToInt32. destruct (2 ^ 31 <=? ToUint32 x).
  - unfold ToUint32.
    replace (x mod 2 ^ 32 - 2 ^ 32) with (x mod 2 ^ 32 + (-1) * 2 ^ 32) by lia.
    rewrite Z.mod_add by lia. apply Z.mod_mod. lia.
  - apply ToUint32_idem.
Qed.

Lemma ToInt32_small (x : Z) : 0 <= x < 2 ^ 31 -> ToInt32 x = x.
Proof.
  intros H. unfold ToInt32. rewrite ToUint32_small by lia.
  destruct (2 ^ 31 <=? x) eqn:E; [apply Z.leb_le in E; lia | reflexivity].
Qed.

Lemma ToUint32_lxor (a b : Z) :
  ToUint32 (Z.lxor a b) = Z.lxor (ToUint32 a) (ToUint32 b).
Proof.
  unfold ToUint32. apply Z.bits_inj'. intros n Hn.
  rewrite Z.lxor_spec, !Z.testbit_mod_pow2, Z.lxor_spec by lia.
  destruct (n <? 32); simpl; [reflexivity|].
  reflexivity.
Qed.

Lemma ToUint32_mul (a b : Z) :
  ToUint32 (ToUint32 a * b) = ToUint32 (a * b).
Proof. unfold ToUint32. apply Z.mul_mod_idemp_l. lia. Qed.

Lemma ToUint32_bxor (a b : Z) :
  ToUint32 (bxor a b) = Z.lxor (ToUint32 a) (ToUint32 b).
Proof.
  unfold bxor. now rewrite ToUint32_ToInt32, ToUint32_lxor, !ToUint32_ToInt32.
Qed.

Lemma ToUint32_imul (a b : Z) :
  ToUint32 (imul a b) = ToUint32 (ToUint32 a * ToUint32 b).
Proof. unfold imul. apply ToUint32_ToInt32. Qed.

Lemma ushr_spec (a n : Z) :
  0 <= n < 32 -> ushr a n = Z.shiftr (ToUint32 a) n.
Proof.
  intros H. unfold ushr. rewrite (ToUint32_small n) by lia.
  now rewrite Z.mod_small by lia.
Qed.

Lemma shiftr_range (x n : Z) :
  0 <= n -> 0 <= x < 2 ^ 32 -> 0 <= Z.shiftr x n < 2 ^ 32.
Proof.
  intros Hn Hx. rewrite Z.shiftr_div_pow2 by lia.
  assert (0 < 2 ^ n) by (apply Z.pow_pos_nonneg; lia).
  split.
  - apply Z.div_pos; lia.
  - apply Z.le_lt_trans with x; [|lia].
    apply Z.div_le_upper_bound; nia.
Qed.

Lemma ushr_range (a n : Z) : 0 <= ushr a n < 2 ^ 32.
Proof.
  unfold ushr. apply shiftr_range.
  - apply Z.mod_pos_bound. lia.
  - apply ToUint32_range.
Qed.

Lemma band_low21 (h : Z) : band 2097151 h = ToUint32 h mod 2 ^ 21.
Proof.
  unfold band. rewrite (ToInt32_small 2097151) by lia.
  change 2097151 with (Z.ones 21).
  rewrite Z.land_comm, Z.land_ones by lia.
  assert (E : ToInt32 h mod 2 ^ 21 = ToUint32 h mod 2 ^ 21).
  { rewrite <- (ToUint32_ToInt32 h). unfold ToUint32.
    apply Z.bits_inj'. intros n Hn.
    rewrite !Z.testbit_mod_pow2 by lia.
    destruct (Z.ltb_spec n 21) as [L|L]; simpl; [|reflexivity].
    destruct (Z.ltb_spec n 32); [reflexivity | lia]. }
  rewrite E. apply ToInt32_small.
  pose proof (Z.mod_pos_bound (ToUint32 h) (2 ^ 21)). lia.
Qed.

(** ** Strings *)

Lemma lit_wf (s : string) : wf_string (lit s).
Proof.
  unfold wf_string, lit. apply Forall_forall. intros c Hc.
  apply in_map_iff in Hc. destruct Hc as [a [<- _]].
  pose proof (N_ascii_bounded a). unfold code_unit_ok. lia.
Qed.

Lemma Number_toString_wf (n : Z) : wf_string (Number_toString n).
Proof. apply lit_wf. Qed.

(** ** The source hash against the specification's algorithm *)

Lemma step_lane (h ch k : Z) :
  0 <= k < 2 ^ 32 ->
  ToUint32 (imul (bxor h ch) k) = Spec.mul32 (Z.lxor (ToUint32 h) ch) k.
Proof.
  intros Hk. rewrite ToUint32_imul, ToUint32_bxor, (ToUint32_small k) by exact Hk.
  unfold Spec.mul32, Spec.word.
  rewrite <- (ToUint32_idem h) at 1. rewrite <- ToUint32_lxor.
  rewrite ToUint32_mul. reflexivity.
Qed.

Lemma cyrb53_loop_spec (str : jsstring) : forall h1 h2,
  let '(g1, g2) := cyrb53_loop str h1 h2 in
  (ToUint32 g1, ToUint32 g2)
  = Spec.absorb 2654435761 1597334677 str (ToUint32 h1, ToUint32 h2).
Proof.
  induction str as [|ch rest IH]; intros h1 h2.
  - reflexivity.
  - cbn [cyrb53_loop]. specialize (IH (imul (bxor h1 ch) 2654435761)
                                      (imul (bxor h2 ch) 1597334677)).
    destruct (cyrb53_loop rest _ _) as [g1 g2].
    rewrite IH. unfold Spec.absorb. cbn [fold_left Spec.advance fst snd].
    rewrite !step_lane by lia. reflexivity.
Qed.

Lemma xsm_lane (h s k : Z) :
  0 <= s < 32 -> 0 <= k < 2 ^ 32 ->
  ToUint32 (imul (bxor h (ushr h s)) k) = Spec.xsm (ToUint32 h) s k.
Proof.
  intros Hs Hk. rewrite ToUint32_imul, ToUint32_bxor, (ToUint32_small k) by exact Hk.
  rewrite ushr_spec by exact Hs.
  rewrite (ToUint32_small (Z.shiftr _ _))
    by (apply shiftr_range; [lia | apply ToUint32_range]).
  reflexivity.
Qed.

Lemma cyrb53_mix_spec (h1 h2 : Z) :
  let '(g1, g2) := cyrb53_mix h1 h2 in
  (ToUint32 g1, ToUint32 g2)
  = Spec.finalize 16 13 2246822507 3266489909 (ToUint32 h1, ToUint32 h2).
Proof.
  unfold cyrb53_mix, Spec.finalize. cbn [fst snd].
  rewrite !ToUint32_bxor, !xsm_lane by lia.
  rewrite ToUint32_bxor, !xsm_lane by lia.
  reflexivity.
Qed.

Lemma cyrb53_combine_spec (h1 h2 : Z) :
  cyrb53_combine h1 h2 = Spec.combine (ToUint32 h1, ToUint32 h2).
Proof.
  unfold cyrb53_combine, Spec.combine. cbn [fst snd].
  rewrite band_low21, ushr_spec by lia. rewrite Z.shiftr_0_r. lia.
Qed.

Lemma cyrb53_start_spec (seed : Z) :
  (ToUint32 (bxor 0xdeadbeef seed), ToUint32 (bxor 0x41c6ce57 seed))
  = Spec.start 0xdeadbeef 0x41c6ce57 seed.
Proof.
  rewrite !ToUint32_bxor. unfold Spec.start, Spec.word.
  fold (ToUint32 (Z.lxor 0xdeadbeef seed)) (ToUint32 (Z.lxor 0x41c6ce57 seed)).
  rewrite !ToUint32_lxor. reflexivity.
Qed.

Lemma cyrb53_number_spec (str : jsstring) (seed : Z) :
  cyrb53_number str seed
  = Spec.hash 0xdeadbeef 0x41c6ce57 2654435761 1597334677
              16 13 2246822507 3266489909 str seed.
Proof.
  unfold cyrb53_number, Spec.hash.
  pose proof (cyrb53_loop_spec str (bxor 0xdeadbeef seed) (bxor 0x41c6ce57 seed)) as L.
  destruct (cyrb53_loop str _ _) as [g1 g2].
  pose proof (cyrb53_mix_spec g1 g2) as X.
  destruct (cyrb53_mix g1 g2) as [k1 k2].
  rewrite cyrb53_combine_spec, X, L, cyrb53_start_spec. reflexivity.
Qed.

(** C1. For every string and every integer seed, [cyrb53] computes the
    specified two-lane hash: both 32-bit lanes start from a fixed constant
    XORed with the seed, each character is XORed in and the lane multiplied
    (32 bits wide) by a fixed odd constant, two rounds of
    XOR-shift-multiply cross-mix the lanes, and the result is the decimal
    string of (low 21 bits of the second lane) * 2^32 + (first lane,
    unsigned). *)
Theorem cyrb53_implements_spec :
  Z.odd 2654435761 = true /\ Z.odd 1597334677 = true /\
  forall (path : jsstring) (seed : Z),
    cyrb53 path seed = Spec.computeId path seed.
Proof.
  split; [reflexivity|]. split; [reflexivity|].
  intros path seed. unfold cyrb53, Spec.computeId.
  now rewrite cyrb53_number_spec.
Qed.

(** ** The identifier is a 53-bit decimal numeral *)

Lemma cyrb53_combine_range (h1 h2 : Z) :
  0 <= cyrb53_combine h1 h2 <= 9007199254740991.
Proof.
  unfold cyrb53_combine. rewrite band_low21.
  pose proof (Z.mod_pos_bound (ToUint32 h2) (2 ^ 21)) as B.
  pose proof (ushr_range h1 0) as U. lia.
Qed.

Lemma cyrb53_number_range (str : jsstring) (seed : Z) :
  0 <= cyrb53_number str seed <= 9007199254740991.
Proof.
  unfold cyrb53_number.
  destruct (cyrb53_loop str _ _) as [g1 g2].
  destruct (cyrb53_mix g1 g2) as [k1 k2].
  apply cyrb53_combine_range.
Qed.

Lemma unlit_lit (s : string) : unlit (lit s) = Some s.
Proof.
  induction s as [|a s IH].
  - reflexivity.
  - unfold lit in *. cbn [list_ascii_of_string map unlit].
    pose proof (N_ascii_bounded a) as B.
    assert (L : (0 <=? Z.of_N (N_of_ascii a)) && (Z.of_N (N_of_ascii a) <? 256)
                = true).
    { apply andb_true_iff. split; [apply Z.leb_le | apply Z.ltb_lt]; lia. }
    rewrite L, IH, N2Z.id, ascii_N_embedding. reflexivity.
Qed.

Lemma to_uint_nonnil (n : N) : N.to_uint n <> Decimal.Nil.
Proof.
  destruct n as [|p]; [discriminate | apply DecimalPos.Unsigned.to_uint_nonnil].
Qed.

Lemma parse_Number_toString (n : Z) :
  0 <= n -> parse_decimal (Number_toString n) = Some n.
Proof.
  intros H. unfold parse_decimal, Number_toString.
  rewrite unlit_lit, NilZero.usu by apply to_uint_nonnil.
  rewrite DecimalN.Unsigned.of_to, Z2N.id by exact H. reflexivity.
Qed.

(** C2. For every input string and seed, the value [cyrb53] returns is the
    decimal numeral of a non-negative integer of at most 9007199254740991
    (53 bits): it is printed from such a number, and reading it back as a
    decimal integer gives that number. *)
Theorem cyrb53_fits_53_bits (str : jsstring) (seed : Z) :
  exists n : Z,
    0 <= n <= 9007199254740991 /\
    cyrb53 str seed = Number_toString n /\
    parse_decimal (cyrb53 str seed) = Some n.
Proof.
  exists (cyrb53_number str seed).
  pose proof (cyrb53_number_range str seed) as R.
  split; [exact R|]. split; [reflexivity|].
  apply parse_Number_toString. lia.
Qed.

(** ** Statements that leave the Registry alone *)

Lemma keeps_ret {A} (a : A) : keeps_registry (ret a).
Proof. intros w. reflexivity. Qed.

Lemma keeps_throw {A} (e : error) : keeps_registry (@throw A e).
Proof. intros w. reflexivity. Qed.

Lemma keeps_bind {A B} (c : M A) (k : A -> M B) :
  keeps_registry c -> (forall a, keeps_registry (k a)) ->
  keeps_registry (bind c k).
Proof.
  intros Hc Hk w. unfold bind. specialize (Hc w).
  destruct (c w) as [[a|e] w']; cbn [snd] in *.
  - now rewrite Hk.
  - exact Hc.
Qed.

Lemma keeps_assert (b : bool) (m : string) : keeps_registry (PP.debug.assert b m).
Proof. intros w. destruct b; reflexivity. Qed.

Lemma keeps_warn (line : jsstring) : keeps_registry (warn line).
Proof. intros w. reflexivity. Qed.

Lemma keeps_emit (e : event) : keeps_registry (emit e).
Proof. intros w. reflexivity. Qed.

Lemma keeps_fresh_serial : keeps_registry fresh_serial.
Proof. intros w. reflexivity. Qed.

Lemma keeps_read : keeps_registry registry.
Proof. intros w. reflexivity. Qed.

Lemma keeps_get (v : value) (k : string) : keeps_registry (get v k).
Proof. intros w. destruct v; reflexivity. Qed.

Lemma keeps_as_string (v : value) : keeps_registry (as_string v).
Proof. intros w. destruct v; reflexivity. Qed.

Create HintDb frame.
#[local] Hint Resolve keeps_ret keeps_throw keeps_assert keeps_warn keeps_emit
  keeps_fresh_serial keeps_read keeps_get keeps_as_string : frame.

Ltac frame :=
  repeat (apply keeps_bind; [auto with frame | intros]); auto with frame.

Lemma keeps_invoke (recv : value) (member : list string) (args : list value) :
  keeps_registry (invoke recv member args).
Proof.
  unfold invoke. destruct recv;
    repeat match goal with
      | |- keeps_registry (if ?b then _ else _) => destruct b
      | |- keeps_registry (match ?x with _ => _ end) => destruct x
      end; frame.
Qed.

#[local] Hint Resolve keeps_invoke : frame.

(** ** The two loaders, branch by branch *)

Lemma string_eqb_eq (a b : jsstring) : string_eqb a b = true <-> a = b.
Proof.
  revert b. induction a as [|x a IH]; intros [|y b]; simpl;
    try (split; [discriminate | discriminate]); [tauto|].
  rewrite andb_true_iff, Z.eqb_eq, IH.
  split; [intros [-> ->]; reflexivity | intros E; injection E; auto].
Qed.

Lemma includes_In (l : list jsstring) (x : jsstring) :
  includes l x = true <-> In x l.
Proof.
  unfold includes. rewrite existsb_exists. split.
  - intros [y [Hy E]]. apply string_eqb_eq in E. now subst.
  - intros H. exists x. split; [exact H | now apply string_eqb_eq].
Qed.

Lemma includes_app_self (l : list jsstring) (x : jsstring) :
  includes (l ++ [x]) x = true.
Proof. apply includes_In, in_or_app. right. now left. Qed.

Lemma image_load_scene (nm p : jsstring) (w : world) :
  PP.assets.image.load (Scene nm) (String p) w =
  let id := cyrb53 p 0 in
  if includes (list_images_id w) id
  then (Normal (PP.assets.handle id "image"),
        after_warn w (PP.assets.duplicate_warning p))
  else (Normal (PP.assets.handle id "image"),
        after_push w id
          (Call (Scene nm) ["load"; "image"]%string [String id; String p])).
Proof.
  unfold PP.assets.image.load, cyrb53_default. cbn.
  unfold bind, registry. cbn.
  destruct (includes (list_images_id w) (cyrb53 p 0)); reflexivity.
Qed.

Lemma load_spritesheet_scene (nm p : jsstring) (fw fh sf ef : float) (w : world) :
  PP.assets.sprite.load_spritesheet (Scene nm) (String p)
    (Number fw) (Number fh) (Number sf) (Number ef) w =
  let id := cyrb53 p 0 in
  if includes (list_images_id w) id
  then (Normal (PP.assets.handle id "sprite"),
        after_warn w (PP.assets.duplicate_warning p))
  else (Normal (PP.assets.handle id "sprite"),
        after_push w id
          (Call (Scene nm) ["load"; "spritesheet"]%string
             [String id; String p;
              sheet_options (Number fw) (Number fh) (Number sf) (Number ef)])).
Proof.
  unfold PP.assets.sprite.load_spritesheet, cyrb53_default. cbn.
  unfold bind, registry. cbn.
  destruct (includes (list_images_id w) (cyrb53 p 0)); reflexivity.
Qed.

Lemma image_load_new (nm p : jsstring) (w : world) :
  includes (list_images_id w) (cyrb53 p 0) = false ->
  PP.assets.image.load (Scene nm) (String p) w =
  (Normal (PP.assets.handle (cyrb53 p 0) "image"),
   after_push w (cyrb53 p 0)
     (Call (Scene nm) ["load"; "image"]%string [String (cyrb53 p 0); String p])).
Proof. intros H. rewrite image_load_scene. cbv zeta. now rewrite H. Qed.

Lemma load_spritesheet_new (nm p : jsstring) (fw fh sf ef : float) (w : world) :
  includes (list_images_id w) (cyrb53 p 0) = false ->
  PP.assets.sprite.load_spritesheet (Scene nm) (String p)
    (Number fw) (Number fh) (Number sf) (Number ef) w =
  (Normal (PP.assets.handle (cyrb53 p 0) "sprite"),
   after_push w (cyrb53 p 0)
     (Call (Scene nm) ["load"; "spritesheet"]%string
        [String (cyrb53 p 0); String p;
         sheet_options (Number fw) (Number fh) (Number sf) (Number ef)])).
Proof. intros H. rewrite load_spritesheet_scene. cbv zeta. now rewrite H. Qed.

(** A duplicate never reaches the engine, so any value that passes the
    [typeof] test will do as scene. *)
Lemma image_load_duplicate (scene : value) (p : jsstring) (w : world) :
  typeof scene = "object"%string ->
  includes (list_images_id w) (cyrb53 p 0) = true ->
  PP.assets.image.load scene (String p) w =
  (Normal (PP.assets.handle (cyrb53 p 0) "image"),
   after_warn w (PP.assets.duplicate_warning p)).
Proof.
  intros T H. unfold PP.assets.image.load, cyrb53_default.
  rewrite T. cbn. unfold bind, registry. cbn. now rewrite H.
Qed.

Lemma load_spritesheet_duplicate
  (scene : value) (p : jsstring) (fw fh sf ef : float) (w : world) :
  typeof scene = "object"%string ->
  includes (list_images_id w) (cyrb53 p 0) = true ->
  PP.assets.sprite.load_spritesheet scene (String p)
    (Number fw) (Number fh) (Number sf) (Number ef) w =
  (Normal (PP.assets.handle (cyrb53 p 0) "sprite"),
   after_warn w (PP.assets.duplicate_warning p)).
Proof.
  intros T H. unfold PP.assets.sprite.load_spritesheet, cyrb53_default.
  rewrite T. cbn. unfold bind, registry. cbn. now rewrite H.
Qed.

(** ** Registering the same path twice *)

(** C3, as the code has it.  On an engine scene and a Registry that does
    not yet hold the path's id, the first call of either loader computes
    the id as [cyrb53 path 0], appends it to the Registry, issues the
    engine load and returns the handle [{id, type}]; a second call with
    the same path returns an equal handle (same id, no mark telling new
    from duplicate), leaves Registry and engine untouched, and completes
    normally after one [console.warn] line. *)
Theorem register_twice_same_path
  (nm p : jsstring) (fw fh sf ef : float) (scene2 : value) (w : world)
  (fresh : includes (list_images_id w) (cyrb53 p 0) = false)
  (obj2 : typeof scene2 = "object"%string) :
  let id := cyrb53 p 0 in
  (let first := PP.assets.image.load (Scene nm) (String p) w in
   let second := PP.assets.image.load scene2 (String p) (snd first) in
   first = (Normal (PP.assets.handle id "image"),
            after_push w id
              (Call (Scene nm) ["load"; "image"]%string [String id; String p]))
   /\ second = (Normal (PP.assets.handle id "image"),
                after_warn (snd first) (PP.assets.duplicate_warning p)))
  /\
  (let first := PP.assets.sprite.load_spritesheet (Scene nm) (String p)
                  (Number fw) (Number fh) (Number sf) (Number ef) w in
   let second := PP.assets.sprite.load_spritesheet scene2 (String p)
                   (Number fw) (Number fh) (Number sf) (Number ef) (snd first) in
   first = (Normal (PP.assets.handle id "sprite"),
            after_push w id
              (Call (Scene nm) ["load"; "spritesheet"]%string
                 [String id; String p;
                  sheet_options (Number fw) (Number fh) (Number sf) (Number ef)]))
   /\ second = (Normal (PP.assets.handle id "sprite"),
                after_warn (snd first) (PP.assets.duplicate_warning p))).
Proof.
  cbv zeta. split.
  - rewrite image_load_new by exact fresh. split; [reflexivity|].
    apply image_load_duplicate; [exact obj2|].
    cbn [snd after_push list_images_id]. apply includes_app_self.
  - rewrite load_spritesheet_new by exact fresh. split; [reflexivity|].
    apply load_spritesheet_duplicate; [exact obj2|].
    cbn [snd after_push list_images_id]. apply includes_app_self.
Qed.

Lemma register_twice_same_path_witness :
  let p := lit "hero.png" in
  let s := Scene (lit "main") in
  fst (PP.assets.image.load s (String p) initial_world)
    = Normal (PP.assets.handle (lit "8079230315752411") "image")
  /\ fst (PP.assets.image.load s (String p)
            (snd (PP.assets.image.load s (String p) initial_world)))
    = Normal (PP.assets.handle (lit "8079230315752411") "image").
Proof.
  cbv zeta.
  assert (F : includes (list_images_id initial_world)
                (cyrb53 (lit "hero.png") 0) = false)
    by (vm_compute; reflexivity).
  assert (O : typeof (Scene (lit "main")) = "object"%string) by reflexivity.
  pose proof (register_twice_same_path (lit "main") (lit "hero.png")
                1%float 1%float 0%float 0%float (Scene (lit "main"))
                initial_world F O) as H.
  cbv zeta in H. destruct H as [[H1 H2] _].
  split.
  - rewrite H1. vm_compute. reflexivity.
  - rewrite H2. vm_compute. reflexivity.
Defined.

(** C3 as stated fails twice over.  First, a path can be a duplicate on its
    very first call: once "img51953369.png" is registered, the first call
    with "img85105691.png" (same 53-bit id) inserts nothing, issues no
    engine load and only warns.  Second, from the empty Registry the first
    and the second call with "hero.png" return the same value, so nothing
    in the handle marks the first one as new. *)
Lemma register_twice_counterexample :
  let s := Scene (lit "main") in
  (let w0 := snd (PP.assets.image.load s (String (lit "img51953369.png"))
                    initial_world) in
   let first := PP.assets.image.load s (String (lit "img85105691.png")) w0 in
   list_images_id (snd first) = list_images_id w0
   /\ calls (snd first) = calls w0
   /\ console_warn (snd first) <> console_warn w0)
  /\
  (let first := PP.assets.image.load s (String (lit "hero.png")) initial_world in
   let second := PP.assets.image.load s (String (lit "hero.png")) (snd first) in
   ~ exists marked_new : completion value -> bool,
       marked_new (fst first) = true /\ marked_new (fst second) = false).
Proof.
  cbv zeta. split.
  - split; [vm_compute; reflexivity|].
    split; [vm_compute; reflexivity|].
    vm_compute. discriminate.
  - set (first := PP.assets.image.load _ _ initial_world).
    set (second := PP.assets.image.load _ _ (snd first)).
    assert (E : fst first = fst second) by (vm_compute; reflexivity).
    intros [m [H1 H2]]. rewrite E in H1. congruence.
Qed.

(** ** Rejected arguments *)

Lemma assert_false (m : string) (w : world) :
  PP.debug.assert false m w
  = (Throw (Error (lit "Assertion failed: " ++ lit m)), w).
Proof. reflexivity. Qed.

Lemma assert_true (m : string) (w : world) :
  PP.debug.assert true m w = (Normal tt, w).
Proof. reflexivity. Qed.

Lemma not_string_eqb (v : value) :
  typeof v <> "string"%string -> String.eqb (typeof v) "string" = false.
Proof. intros H. now apply String.eqb_neq. Qed.

(** What the two assertions of lines 255-256 do give.  Calling
    [PP.assets.image.load] with an [image_path] whose [typeof] is not
    "string", or with a [scene] whose [typeof] is not "object", throws the
    assertion's [Error] at once: the call ends abruptly in the very state
    it started in, so the Registry is unchanged, nothing was sent to the
    engine and nothing was logged. *)
Theorem load_rejects_wrong_types (scene image_path : value) (w : world) :
  typeof image_path <> "string"%string \/ typeof scene <> "object"%string ->
  exists m : string,
    PP.assets.image.load scene image_path w
    = (Throw (Error (lit "Assertion failed: " ++ lit m)), w).
Proof.
  intros H. unfold PP.assets.image.load.
  destruct (String.eqb (typeof scene) "object") eqn:Es.
  - assert (Ep : String.eqb (typeof image_path) "string" = false).
    { destruct H as [H|H]; [now apply not_string_eqb|].
      apply String.eqb_eq in Es. contradiction. }
    rewrite Ep. eexists. unfold bind at 1. rewrite assert_true.
    unfold bind at 1. rewrite assert_false. reflexivity.
  - eexists. unfold bind at 1. rewrite assert_false. reflexivity.
Qed.

Lemma load_rejects_wrong_types_witness :
  exists m : string,
    PP.assets.image.load (Scene (lit "main")) (Number 5%float) initial_world
    = (Throw (Error (lit "Assertion failed: " ++ lit m)), initial_world).
Proof.
  apply (load_rejects_wrong_types (Scene (lit "main")) (Number 5%float)
           initial_world).
  left. simpl. discriminate.
Defined.

(** The [typeof] test lets [null] through.  With a string path that is not
    registered yet, the id is pushed first and the runtime's [TypeError]
    comes only at [scene.load]. *)
Remark load_null_scene (p : jsstring) (w : world) :
  includes (list_images_id w) (cyrb53 p 0) = false ->
  PP.assets.image.load Null (String p) w
  = (Throw TypeError,
     mkWorld (list_images_id w ++ [cyrb53 p 0]) (console_warn w) (calls w)).
Proof.
  intros H. unfold PP.assets.image.load, cyrb53_default. cbn.
  unfold bind, registry. cbn. now rewrite H.
Qed.

(** C6, at the input where the code breaks it.  [null] is not an object,
    and the assertion of line 255 means to refuse it ("scene should be a
    scene object"), but [typeof null] is "object".  So
    [PP.assets.image.load(null, "a.png")] at start-up passes both
    assertions, pushes the id 4701540848382992 into the Registry (line
    265) and only then throws, the runtime's [TypeError] at [scene.load]
    (line 267): the call has failed and the Registry has changed, where C6
    has a non-object scene fail before any effect. *)
Theorem load_null_scene_registers_then_throws :
  let result :=
    PP.assets.image.load Null (String (lit "a.png")) initial_world in
  typeof Null = "object"%string
  /\ fst result = Throw TypeError
  /\ list_images_id (snd result) = [lit "4701540848382992"]
  /\ console_warn (snd result) = []
  /\ calls (snd result) = []
  /\ snd result <> initial_world.
Proof.
  cbv zeta. split; [reflexivity|].
  split; [vm_compute; reflexivity|].
  split; [vm_compute; reflexivity|].
  split; [vm_compute; reflexivity|].
  split; [vm_compute; reflexivity|].
  vm_compute. discriminate.
Qed.

(** ** Two different paths *)

Lemma includes_app_other (l : list jsstring) (x y : jsstring) :
  includes l y = false -> x <> y -> includes (l ++ [x]) y = false.
Proof.
  intros H N. destruct (includes (l ++ [x]) y) eqn:E; [|reflexivity].
  apply includes_In, in_app_or in E. destruct E as [E|[E|[]]].
  - apply includes_In in E. congruence.
  - contradiction.
Qed.

(** C7, as the code has it.  For two paths whose ids differ, on an engine
    scene and a Registry holding neither id, loading the first and then
    the second appends both ids, issues both engine loads and returns two
    handles with distinct ids; neither call warns. *)
Theorem register_two_paths (nm p1 p2 : jsstring) (w : world)
  (differ : cyrb53 p1 0 <> cyrb53 p2 0)
  (fresh1 : includes (list_images_id w) (cyrb53 p1 0) = false)
  (fresh2 : includes (list_images_id w) (cyrb53 p2 0) = false) :
  let id1 := cyrb53 p1 0 in
  let id2 := cyrb53 p2 0 in
  let first := PP.assets.image.load (Scene nm) (String p1) w in
  let second := PP.assets.image.load (Scene nm) (String p2) (snd first) in
  first = (Normal (PP.assets.handle id1 "image"),
           after_push w id1
             (Call (Scene nm) ["load"; "image"]%string [String id1; String p1]))
  /\ second = (Normal (PP.assets.handle id2 "image"),
               after_push (snd first) id2
                 (Call (Scene nm) ["load"; "image"]%string
                    [String id2; String p2]))
  /\ PP.assets.handle id1 "image" <> PP.assets.handle id2 "image".
Proof.
  cbv zeta. rewrite image_load_new by exact fresh1.
  split; [reflexivity|]. split.
  - apply image_load_new. cbn [snd after_push list_images_id].
    now apply includes_app_other.
  - unfold PP.assets.handle. intros E. injection E as E. contradiction.
Qed.

Lemma register_two_paths_witness :
  let s := Scene (lit "main") in
  let first := PP.assets.image.load s (String (lit "a.png")) initial_world in
  let second := PP.assets.image.load s (String (lit "b.png")) (snd first) in
  list_images_id (snd second)
  = [cyrb53 (lit "a.png") 0; cyrb53 (lit "b.png") 0].
Proof.
  cbv zeta.
  assert (D : cyrb53 (lit "a.png") 0 <> cyrb53 (lit "b.png") 0)
    by (vm_compute; discriminate).
  assert (F1 : includes (list_images_id initial_world)
                 (cyrb53 (lit "a.png") 0) = false) by reflexivity.
  assert (F2 : includes (list_images_id initial_world)
                 (cyrb53 (lit "b.png") 0) = false) by reflexivity.
  pose proof (register_two_paths (lit "main") (lit "a.png") (lit "b.png")
                initial_world D F1 F2) as H.
  cbv zeta in H. destruct H as [H1 [H2 _]].
  rewrite H2, H1. reflexivity.
Defined.

(** C7 as stated fails: "img51953369.png" and "img85105691.png" are two
    different paths with the same id 6453628589230640.  From the empty
    Registry the second load is taken for a duplicate: it returns the
    handle the first call returned, adds nothing to the Registry, sends
    nothing to the engine and warns. *)
Lemma register_two_paths_counterexample :
  let p1 := lit "img51953369.png" in
  let p2 := lit "img85105691.png" in
  let s := Scene (lit "main") in
  let first := PP.assets.image.load s (String p1) initial_world in
  let second := PP.assets.image.load s (String p2) (snd first) in
  wf_string p1 /\ wf_string p2 /\ p1 <> p2
  /\ cyrb53 p1 0 = cyrb53 p2 0
  /\ fst second = fst first
  /\ list_images_id (snd second) = list_images_id (snd first)
  /\ calls (snd second) = calls (snd first)
  /\ console_warn (snd second) <> console_warn (snd first).
Proof.
  cbv zeta.
  split; [apply lit_wf|]. split; [apply lit_wf|].
  split; [vm_compute; discriminate|].
  split; [vm_compute; reflexivity|].
  split; [vm_compute; reflexivity|].
  split; [vm_compute; reflexivity|].
  split; [vm_compute; reflexivity|].
  vm_compute. discriminate.
Qed.

(** ** One Registry for images and spritesheets *)

(** What a returning [PP.assets.image.load] tells: the path was a string,
    the handle is the one built from its id, and the id is in the Registry
    afterwards, whichever branch was taken and whatever the scene was. *)
Lemma image_load_returned (scene image_path h : value) (w w1 : world) :
  PP.assets.image.load scene image_path w = (Normal h, w1) ->
  typeof scene = "object"%string
  /\ exists p : jsstring,
       image_path = String p
       /\ h = PP.assets.handle (cyrb53 p 0) "image"
       /\ includes (list_images_id w1) (cyrb53 p 0) = true.
Proof.
  unfold PP.assets.image.load. intros H.
  destruct (String.eqb (typeof scene) "object") eqn:Es;
    [| unfold bind at 1 in H; rewrite assert_false in H; discriminate].
  apply String.eqb_eq in Es. split; [exact Es|].
  unfold bind at 1 in H. rewrite assert_true in H.
  destruct image_path; try (cbn in H; discriminate).
  exists s. split; [reflexivity|].
  cbn in H. unfold bind at 1 in H. cbn in H.
  unfold cyrb53_default in H.
  destruct (includes (list_images_id w) (cyrb53 s 0)) eqn:E.
  - cbn in H. injection H as <- <-. split; [reflexivity | exact E].
  - unfold bind at 1 in H. cbn [push_id] in H.
    unfold bind at 1 in H.
    pose proof (keeps_invoke scene ["load"; "image"]%string
                  [String (cyrb53 s 0); String s]
                  (mkWorld (list_images_id w ++ [cyrb53 s 0])
                     (console_warn w) (calls w))) as K.
    destruct (invoke scene _ _ _) as [[v|e] w'] eqn:I; [|discriminate].
    cbn in H. injection H as <- <-. split; [reflexivity|].
    cbn [snd list_images_id] in K. rewrite K. apply includes_app_self.
Qed.

(** C9. After [PP.assets.image.load scene p] has returned, a
    [PP.assets.sprite.load_spritesheet] of the same path [p] finds the id
    in the one shared Registry and is a duplicate: it warns, sends nothing
    to the engine, leaves the Registry as it is, and returns a handle with
    the same id whose type tag is "sprite", the tag of this call, while the
    first call returned the tag "image". *)
Theorem spritesheet_after_image_same_path
  (scene image_path h : value) (fw fh sf ef : float) (w w1 : world)
  (loaded : PP.assets.image.load scene image_path w = (Normal h, w1)) :
  exists p : jsstring,
    image_path = String p
    /\ h = PP.assets.handle (cyrb53 p 0) "image"
    /\ PP.assets.sprite.load_spritesheet scene image_path
         (Number fw) (Number fh) (Number sf) (Number ef) w1
       = (Normal (PP.assets.handle (cyrb53 p 0) "sprite"),
          after_warn w1 (PP.assets.duplicate_warning p))
    /\ PP.assets.handle (cyrb53 p 0) "sprite"
       <> PP.assets.handle (cyrb53 p 0) "image".
Proof.
  destruct (image_load_returned _ _ _ _ _ loaded) as [T [p [-> [-> I]]]].
  exists p. split; [reflexivity|]. split; [reflexivity|]. split.
  - apply load_spritesheet_duplicate; assumption.
  - unfold PP.assets.handle. intros E. injection E as E.
    vm_compute in E. discriminate.
Qed.

Lemma spritesheet_after_image_same_path_witness :
  let s := Scene (lit "main") in
  let p := String (lit "hero.png") in
  let w1 := snd (PP.assets.image.load s p initial_world) in
  PP.assets.sprite.load_spritesheet s p
    (Number 32%float) (Number 32%float) (Number 0%float) (Number 7%float) w1
  = (Normal (PP.assets.handle (lit "8079230315752411") "sprite"),
     after_warn w1 (PP.assets.duplicate_warning (lit "hero.png"))).
Proof.
  cbv zeta.
  assert (L : PP.assets.image.load (Scene (lit "main"))
                (String (lit "hero.png")) initial_world
              = (Normal (PP.assets.handle (lit "8079230315752411") "image"),
                 snd (PP.assets.image.load (Scene (lit "main"))
                        (String (lit "hero.png")) initial_world)))
    by (vm_compute; reflexivity).
  destruct (spritesheet_after_image_same_path _ _ _
              32%float 32%float 0%float 7%float _ _ L)
    as [p [P [_ [S _]]]].
  injection P as <-. rewrite S.
  assert (E : cyrb53 (lit "hero.png") 0 = lit "8079230315752411")
    by (vm_compute; reflexivity).
  rewrite E. reflexivity.
Defined.

(** ** The empty path *)

(** C10. [cyrb53] of the empty string runs its loop zero times: the result
    is the final mixing of the two seed-XORed constants, a 53-bit decimal
    numeral (3338908027751811 for seed 0).  [PP.assets.image.load] takes
    the empty string as any other string: both assertions pass and the id
    is registered and loaded, or reported as a duplicate if it is already
    there. *)
Theorem empty_path_accepted :
  (forall seed : Z,
     cyrb53 [] seed
     = Number_toString
         (let '(h1, h2) := cyrb53_mix (bxor 0xdeadbeef seed) (bxor 0x41c6ce57 seed)
          in cyrb53_combine h1 h2)
     /\ exists n : Z,
          0 <= n <= 9007199254740991 /\ parse_decimal (cyrb53 [] seed) = Some n)
  /\ cyrb53 [] 0 = lit "3338908027751811"
  /\ typeof (String []) = "string"%string
  /\ forall (nm : jsstring) (w : world),
       PP.assets.image.load (Scene nm) (String []) w
       = if includes (list_images_id w) (cyrb53 [] 0)
         then (Normal (PP.assets.handle (cyrb53 [] 0) "image"),
               after_warn w (PP.assets.duplicate_warning []))
         else (Normal (PP.assets.handle (cyrb53 [] 0) "image"),
               after_push w (cyrb53 [] 0)
                 (Call (Scene nm) ["load"; "image"]%string
                    [String (cyrb53 [] 0); String []])).
Proof.
  split.
  - intros seed. split; [reflexivity|].
    exists (cyrb53_number [] seed).
    pose proof (cyrb53_number_range [] seed) as R.
    split; [exact R|]. apply parse_Number_toString. lia.
  - split; [vm_compute; reflexivity|]. split; [reflexivity|].
    intros nm w. apply image_load_scene.
Qed.

(** ** Seeds *)

(** C8. The seed enters both lanes by XOR (XORing the lane's constant
    back onto its initial value returns the seed's low 32 bits) and can
    change the result: the seeds 0 and 1 give different ids for
    "hero.png".  It need not: a seed
    is used through its low 32 bits only, so 0 and 4294967296 give the
    same id. *)
Theorem seed_sensitivity :
  (forall seed : Z,
     cyrb53_loop [] (bxor 0xdeadbeef seed) (bxor 0x41c6ce57 seed)
     = (bxor 0xdeadbeef seed, bxor 0x41c6ce57 seed)
     /\ ToUint32 (bxor (bxor 0xdeadbeef seed) 0xdeadbeef) = ToUint32 seed
     /\ ToUint32 (bxor (bxor 0x41c6ce57 seed) 0x41c6ce57) = ToUint32 seed)
  /\ (exists (p : jsstring) (s1 s2 : Z),
        s1 <> s2 /\ cyrb53 p s1 <> cyrb53 p s2)
  /\ (exists (p : jsstring) (s1 s2 : Z),
        s1 <> s2 /\ cyrb53 p s1 = cyrb53 p s2).
Proof.
  split.
  { intros seed. split; [reflexivity|].
    rewrite !ToUint32_bxor, !(Z.lxor_comm _ (ToUint32 seed)), !Z.lxor_assoc,
      !Z.lxor_nilpotent, !Z.lxor_0_r.
    split; reflexivity. }
  split.
  - exists (lit "hero.png"), 0, 1. split; [discriminate|].
    vm_compute. discriminate.
  - exists (lit "hero.png"), 0, 4294967296. split; [discriminate|].
    vm_compute. reflexivity.
Qed.

(** ** Determinism *)

(** C4. [cyrb53] is a function of its two arguments alone: any two
    evaluations at the same path and seed give the same string; and the id
    a loader hands out for a path is the same in every state of the
    library. *)
Theorem cyrb53_deterministic
  (path : jsstring) (seed : Z) (r1 r2 : jsstring)
  (eval1 : r1 = cyrb53 path seed) (eval2 : r2 = cyrb53 path seed) :
  r1 = r2
  /\ forall (nm1 nm2 : jsstring) (w1 w2 : world),
       fst (PP.assets.image.load (Scene nm1) (String path) w1)
       = fst (PP.assets.image.load (Scene nm2) (String path) w2).
Proof.
  split; [congruence|].
  intros nm1 nm2 w1 w2. rewrite !image_load_scene. cbv zeta.
  destruct (includes (list_images_id w1) _), (includes (list_images_id w2) _);
    reflexivity.
Qed.

Lemma cyrb53_deterministic_witness :
  cyrb53 (lit "hero.png") 0 = lit "8079230315752411".
Proof.
  assert (E : lit "8079230315752411" = cyrb53 (lit "hero.png") 0)
    by (vm_compute; reflexivity).
  exact (proj1 (cyrb53_deterministic (lit "hero.png") 0
                  (cyrb53 (lit "hero.png") 0) (lit "8079230315752411")
                  eq_refl E)).
Defined.

(** ** The Registry only grows *)

Lemma keeps_adds {A} (c : M A) : keeps_registry c -> adds_at_most_one c.
Proof. intros H w. left. apply H. Qed.

Lemma adds_bind {A B} (c : M A) (k : A -> M B) :
  keeps_registry c -> (forall a, adds_at_most_one (k a)) ->
  adds_at_most_one (bind c k).
Proof.
  intros Hc Hk w. unfold bind. specialize (Hc w).
  destruct (c w) as [[a|e] w']; cbn [snd] in *.
  - rewrite <- Hc. apply Hk.
  - left. exact Hc.
Qed.

(** The shared tail of the two loaders: look the id up, then warn or push
    and call the engine. *)
Lemma adds_check_and_insert {A}
  (url_hash line : jsstring) (dup : M A) (load : M A) :
  keeps_registry dup -> keeps_registry load ->
  adds_at_most_one
    (ids <- registry ;;
     if includes ids url_hash then warn line ;; dup
     else push_id url_hash ;; load).
Proof.
  intros Hd Hl w.
  assert (R : forall k : list jsstring -> M A,
             (ids <- registry ;; k ids) w = k (list_images_id w) w)
    by reflexivity.
  rewrite R. destruct (includes (list_images_id w) url_hash) eqn:E.
  - left. apply keeps_bind; [apply keeps_warn | intros; exact Hd].
  - right. exists url_hash. split; [exact E|].
    unfold bind, push_id. cbn iota beta. rewrite Hl. reflexivity.
Qed.

Lemma image_load_adds (scene image_path : value) :
  adds_at_most_one (PP.assets.image.load scene image_path).
Proof.
  unfold PP.assets.image.load.
  do 3 (apply adds_bind; [auto with frame | intros]).
  cbv zeta. apply adds_check_and_insert; frame.
Qed.

Lemma load_spritesheet_adds (scene image_path fw fh sf ef : value) :
  adds_at_most_one
    (PP.assets.sprite.load_spritesheet scene image_path fw fh sf ef).
Proof.
  unfold PP.assets.sprite.load_spritesheet.
  do 7 (apply adds_bind; [auto with frame | intros]).
  cbv zeta. apply adds_check_and_insert; frame.
Qed.

Lemma image_add_keeps (scene image x y px py : value) :
  keeps_registry (PP.assets.image.add scene image x y px py).
Proof. unfold PP.assets.image.add. frame. Qed.

Lemma sprite_add_keeps (scene sprite x y px py : value) :
  keeps_registry (PP.assets.sprite.add scene sprite x y px py).
Proof. unfold PP.assets.sprite.add. frame. Qed.

Lemma run_adds (o : op) : adds_at_most_one (run o).
Proof.
  destruct o; cbn [run].
  - apply image_load_adds.
  - apply keeps_adds, image_add_keeps.
  - apply load_spritesheet_adds.
  - apply keeps_adds, sprite_add_keeps.
Qed.

Lemma run_all_extends (os : list op) :
  forall w, exists added,
    list_images_id (run_all os w) = list_images_id w ++ added.
Proof.
  induction os as [|o rest IH]; intros w; cbn [run_all].
  - exists []. now rewrite List.app_nil_r.
  - destruct (IH (snd (run o w))) as [added E].
    destruct (run_adds o w) as [S | [id [_ S]]]; rewrite S in E.
    + exists added. exact E.
    + exists (id :: added). rewrite E, <- List.app_assoc. reflexivity.
Qed.

(** C5. The Registry starts empty; every call of an asset entry point,
    whether it returns or throws, leaves the Registry as it was or appends
    exactly one id that was not in it; so after any sequence of calls the
    old Registry is a prefix of the new one: an id that is present stays
    present, and nothing is ever removed. *)
Theorem registry_grows_monotonically :
  list_images_id initial_world = []
  /\ (forall (o : op) (w : world),
        list_images_id (snd (run o w)) = list_images_id w
        \/ exists id,
             includes (list_images_id w) id = false
             /\ list_images_id (snd (run o w)) = list_images_id w ++ [id])
  /\ (forall (os : list op) (w : world),
        exists added,
          list_images_id (run_all os w) = list_images_id w ++ added
          /\ forall id,
               includes (list_images_id (run_all os w)) id
               = includes (list_images_id w) id || includes added id).
Proof.
  split; [reflexivity|]. split.
  - intros o w. apply run_adds.
  - intros os w. destruct (run_all_extends os w) as [added E].
    exists added. split; [exact E|].
    intros id. rewrite E. unfold includes. apply List.existsb_app.
Qed.

(** * Further properties of the code *)

(** ** The hash: seeds and the decimal form *)

Lemma ToInt32_congr (x y : Z) : ToUint32 x = ToUint32 y -> ToInt32 x = ToInt32 y.
Proof. intros E. unfold ToInt32. now rewrite E. Qed.

Lemma bxor_seed_wrap (c seed k : Z) : bxor c (seed + k * 2 ^ 32) = bxor c seed.
Proof.
  unfold bxor. f_equal. f_equal. apply ToInt32_congr.
  unfold ToUint32. apply Z.mod_add. lia.
Qed.

(** The seed counts through its low 32 bits only: adding any multiple of
    2^32 to it changes no id. *)
Theorem cyrb53_seed_mod_2_32 (str : jsstring) (seed k : Z) :
  cyrb53 str (seed + k * 2 ^ 32) = cyrb53 str seed.
Proof.
  unfold cyrb53, cyrb53_number. now rewrite !bxor_seed_wrap.
Qed.

Lemma Number_toString_inj (n m : Z) :
  0 <= n -> 0 <= m -> Number_toString n = Number_toString m -> n = m.
Proof.
  intros Hn Hm E.
  pose proof (parse_Number_toString n Hn) as Pn.
  pose proof (parse_Number_toString m Hm) as Pm.
  rewrite E in Pn. congruence.
Qed.

Lemma string_eqb_refl (s : jsstring) : string_eqb s s = true.
Proof. now apply string_eqb_eq. Qed.

(** Comparing two ids as strings, which is what [includes] does, is
    comparing the two 53-bit numbers they print: the decimal form loses
    nothing. *)
Theorem id_comparison_is_number_comparison
  (p1 p2 : jsstring) (s1 s2 : Z) :
  string_eqb (cyrb53 p1 s1) (cyrb53 p2 s2)
  = (cyrb53_number p1 s1 =? cyrb53_number p2 s2).
Proof.
  pose proof (cyrb53_number_range p1 s1) as R1.
  pose proof (cyrb53_number_range p2 s2) as R2.
  destruct (Z.eqb_spec (cyrb53_number p1 s1) (cyrb53_number p2 s2)) as [E|N].
  - unfold cyrb53. rewrite E. apply string_eqb_refl.
  - destruct (string_eqb (cyrb53 p1 s1) (cyrb53 p2 s2)) eqn:S; [|reflexivity].
    apply string_eqb_eq in S. unfold cyrb53 in S.
    apply Number_toString_inj in S; [contradiction | lia | lia].
Qed.

(** ** The Registry as a set of loaded paths *)

Lemma bind_ret {A B} (x : A) (k : A -> M B) : bind (ret x) k = k x.
Proof. reflexivity. Qed.

Lemma NoDup_snoc (l : list jsstring) (x : jsstring) :
  NoDup l -> includes l x = false -> NoDup (l ++ [x]).
Proof.
  intros N H. apply NoDup_app; [exact N | repeat constructor; intros [] |].
  intros a Ha [E|[]]. subst a. apply includes_In in Ha. congruence.
Qed.

Lemma run_NoDup (o : op) (w : world) :
  NoDup (list_images_id w) -> NoDup (list_images_id (snd (run o w))).
Proof.
  intros N. destruct (run_adds o w) as [E | [id [F E]]]; rewrite E.
  - exact N.
  - now apply NoDup_snoc.
Qed.

Lemma run_all_NoDup (os : list op) : forall w,
  NoDup (list_images_id w) -> NoDup (list_images_id (run_all os w)).
Proof.
  induction os as [|o rest IH]; intros w N; cbn [run_all].
  - exact N.
  - apply IH, run_NoDup, N.
Qed.

(** The Registry is a set: whatever calls a program makes, with whatever
    arguments, no id is ever in it twice. *)
Theorem registry_has_no_duplicates (os : list op) :
  NoDup (list_images_id (run_all os initial_world)).
Proof. apply run_all_NoDup. constructor. Qed.

Lemma adds_only_keeps {A} (id : jsstring) (c : M A) :
  keeps_registry c -> adds_only id c.
Proof. intros H w. left. apply H. Qed.

Lemma adds_only_bind {A B} (id : jsstring) (c : M A) (k : A -> M B) :
  keeps_registry c -> (forall a, adds_only id (k a)) ->
  adds_only id (bind c k).
Proof.
  intros Hc Hk w. unfold bind. specialize (Hc w).
  destruct (c w) as [[a|e] w']; cbn [snd] in *.
  - rewrite <- Hc. apply Hk.
  - left. exact Hc.
Qed.

Lemma check_and_insert_only {A}
  (url_hash line : jsstring) (dup : M A) (load : M A) :
  keeps_registry dup -> keeps_registry load ->
  adds_only url_hash
    (ids <- registry ;;
     if includes ids url_hash then warn line ;; dup
     else push_id url_hash ;; load).
Proof.
  intros Hd Hl w.
  assert (R : forall k : list jsstring -> M A,
             (ids <- registry ;; k ids) w = k (list_images_id w) w)
    by reflexivity.
  rewrite R. destruct (includes (list_images_id w) url_hash) eqn:E.
  - left. apply keeps_bind; [apply keeps_warn | intros; exact Hd].
  - right. split; [reflexivity|].
    unfold bind, push_id. cbn iota beta. rewrite Hl. reflexivity.
Qed.

Lemma image_load_adds_only (scene : value) (p : jsstring) :
  adds_only (cyrb53 p 0) (PP.assets.image.load scene (String p)).
Proof.
  unfold PP.assets.image.load.
  do 2 (apply adds_only_bind; [auto with frame | intros]).
  cbn [as_string]. rewrite bind_ret. cbv zeta. unfold cyrb53_default.
  apply check_and_insert_only; frame.
Qed.

Lemma load_spritesheet_adds_only (scene fw fh sf ef : value) (p : jsstring) :
  adds_only (cyrb53 p 0)
    (PP.assets.sprite.load_spritesheet scene (String p) fw fh sf ef).
Proof.
  unfold PP.assets.sprite.load_spritesheet.
  do 6 (apply adds_only_bind; [auto with frame | intros]).
  cbn [as_string]. rewrite bind_ret. cbv zeta. unfold cyrb53_default.
  apply check_and_insert_only; frame.
Qed.

Lemma keeps_bind_throw {A B} (e : error) (k : A -> M B) :
  keeps_registry (bind (throw e) k).
Proof. intros w. reflexivity. Qed.

Lemma image_load_not_string (scene image_path : value) :
  loaded_paths [image_load scene image_path] = [] ->
  keeps_registry (PP.assets.image.load scene image_path).
Proof.
  intros H. unfold PP.assets.image.load.
  do 2 (apply keeps_bind; [auto with frame | intros]).
  destruct image_path; try apply keeps_bind_throw. discriminate.
Qed.

Lemma load_spritesheet_not_string (scene image_path fw fh sf ef : value) :
  loaded_paths [sprite_load_spritesheet scene image_path fw fh sf ef] = [] ->
  keeps_registry
    (PP.assets.sprite.load_spritesheet scene image_path fw fh sf ef).
Proof.
  intros H. unfold PP.assets.sprite.load_spritesheet.
  do 6 (apply keeps_bind; [auto with frame | intros]).
  destruct image_path; try apply keeps_bind_throw. discriminate.
Qed.

Lemma loaded_paths_cons (o : op) (rest : list op) :
  loaded_paths (o :: rest) = loaded_paths [o] ++ loaded_paths rest.
Proof. destruct o; try reflexivity; destruct image_path; reflexivity. Qed.

(** One call: the ids it appends are ids of the string paths it loads. *)
Lemma run_step_paths (o : op) (w : world) :
  exists added,
    list_images_id (snd (run o w)) = list_images_id w ++ added
    /\ incl added (map cyrb53_default (loaded_paths [o]))
    /\ (List.length added <= List.length (loaded_paths [o]))%nat.
Proof.
  assert (K : keeps_registry (run o) ->
              exists added,
                list_images_id (snd (run o w)) = list_images_id w ++ added
                /\ incl added (map cyrb53_default (loaded_paths [o]))
                /\ (List.length added <= List.length (loaded_paths [o]))%nat).
  { intros H. exists []. rewrite List.app_nil_r.
    split; [apply H|]. split; [intros x []| apply Nat.le_0_l]. }
  assert (S : forall p, loaded_paths [o] = [p] ->
              adds_only (cyrb53 p 0) (run o) ->
              exists added,
                list_images_id (snd (run o w)) = list_images_id w ++ added
                /\ incl added (map cyrb53_default (loaded_paths [o]))
                /\ (List.length added <= List.length (loaded_paths [o]))%nat).
  { intros p E H. rewrite E. destruct (H w) as [U | [_ U]].
    - exists []. rewrite List.app_nil_r.
      split; [exact U|]. split; [intros x [] | apply Nat.le_0_l].
    - exists [cyrb53 p 0]. split; [exact U|].
      split; [intros x [<-|[]]; now left | apply Nat.le_refl]. }
  destruct o; cbn [run] in *.
  - destruct image_path;
      try (apply K, image_load_not_string; reflexivity).
    apply (S s); [reflexivity | apply image_load_adds_only].
  - apply K, image_add_keeps.
  - destruct image_path;
      try (apply K, load_spritesheet_not_string; reflexivity).
    apply (S s); [reflexivity | apply load_spritesheet_adds_only].
  - apply K, sprite_add_keeps.
Qed.

Lemma run_all_paths (os : list op) : forall w,
  exists added,
    list_images_id (run_all os w) = list_images_id w ++ added
    /\ incl added (map cyrb53_default (loaded_paths os))
    /\ (List.length added <= List.length (loaded_paths os))%nat.
Proof.
  induction os as [|o rest IH]; intros w; cbn [run_all].
  - exists []. rewrite List.app_nil_r.
    split; [reflexivity|]. split; [intros x [] | apply Nat.le_0_l].
  - destruct (run_step_paths o w) as [a1 [E1 [I1 L1]]].
    destruct (IH (snd (run o w))) as [a2 [E2 [I2 L2]]].
    exists (a1 ++ a2). rewrite E2, E1, <- List.app_assoc.
    split; [reflexivity|].
    rewrite loaded_paths_cons, map_app, !length_app.
    split; [now apply incl_app_app | now apply Nat.add_le_mono].
Qed.

(** Nothing gets into the Registry but the id [cyrb53 p 0] of a string
    path [p] that was handed to one of the two loaders, and the Registry
    never holds more ids than loader calls were made with a string path. *)
Theorem registry_holds_only_loaded_paths (os : list op) :
  incl (list_images_id (run_all os initial_world))
       (map cyrb53_default (loaded_paths os))
  /\ (List.length (list_images_id (run_all os initial_world))
      <= List.length (loaded_paths os))%nat.
Proof.
  destruct (run_all_paths os initial_world) as [added [E [I L]]].
  rewrite E. cbn [initial_world list_images_id List.app]. split; assumption.
Qed.

(** ** The Registry and the engine's loader *)

Lemma load_key_other (r : value) (m : list string) (args : list value) :
  is_load_member m = false -> load_key (Call r m args) = [].
Proof.
  unfold is_load_member. intros H.
  destruct args as [|[] rest]; cbn [load_key]; try reflexivity.
  now rewrite H.
Qed.

Lemma klk_ret {A} (a : A) : keeps_load_keys (ret a).
Proof. intros w. reflexivity. Qed.

Lemma klk_throw {A} (e : error) : keeps_load_keys (@throw A e).
Proof. intros w. reflexivity. Qed.

Lemma klk_bind {A B} (c : M A) (k : A -> M B) :
  keeps_load_keys c -> (forall a, keeps_load_keys (k a)) ->
  keeps_load_keys (bind c k).
Proof.
  intros Hc Hk w. unfold bind. specialize (Hc w).
  destruct (c w) as [[a|e] w']; cbn [snd] in *.
  - now rewrite Hk.
  - exact Hc.
Qed.

Lemma klk_assert (b : bool) (m : string) : keeps_load_keys (PP.debug.assert b m).
Proof. intros w. destruct b; reflexivity. Qed.

Lemma klk_get (v : value) (k : string) : keeps_load_keys (get v k).
Proof. intros w. destruct v; reflexivity. Qed.

Lemma klk_fresh_serial : keeps_load_keys fresh_serial.
Proof. intros w. reflexivity. Qed.

Lemma klk_emit (r : value) (m : list string) (args : list value) :
  is_load_member m = false -> keeps_load_keys (emit (Call r m args)).
Proof.
  intros H w. cbn [emit snd calls]. unfold engine_load_keys.
  rewrite flat_map_app. cbn [flat_map].
  rewrite load_key_other by exact H. now rewrite !List.app_nil_r.
Qed.

Create HintDb loadkeys.
#[local] Hint Resolve klk_ret klk_throw klk_assert klk_get klk_fresh_serial
  klk_emit : loadkeys.
#[local] Hint Extern 1 (is_load_member _ = false) => reflexivity : loadkeys.

Ltac loadkeys :=
  repeat (apply klk_bind; [auto with loadkeys | intros]); auto with loadkeys.

Lemma klk_invoke (recv : value) (member : list string) (args : list value) :
  is_load_member member = false ->
  keeps_load_keys (invoke recv member args).
Proof.
  intros H. unfold invoke. destruct recv;
    repeat match goal with
      | |- keeps_load_keys (if ?b then _ else _) => destruct b
      | |- keeps_load_keys (match ?x with _ => _ end) => destruct x
      end; loadkeys.
Qed.

#[local] Hint Resolve klk_invoke : loadkeys.

Lemma image_add_klk (scene image x y px py : value) :
  keeps_load_keys (PP.assets.image.add scene image x y px py).
Proof. unfold PP.assets.image.add. loadkeys. Qed.

Lemma sprite_add_klk (scene sprite x y px py : value) :
  keeps_load_keys (PP.assets.sprite.add scene sprite x y px py).
Proof. unfold PP.assets.sprite.add. loadkeys. Qed.

Lemma engine_load_keys_snoc (es : list event) (e : event) :
  engine_load_keys (es ++ [e]) = engine_load_keys es ++ load_key e.
Proof.
  unfold engine_load_keys. rewrite flat_map_app. cbn [flat_map].
  now rewrite List.app_nil_r.
Qed.

(** One call on an engine scene appends the same ids to the Registry and
    to the keys asked of the engine's loader. *)
Lemma run_in_step (o : op) (w : world) :
  on_engine_scene o = true ->
  exists added,
    list_images_id (snd (run o w)) = list_images_id w ++ added
    /\ engine_load_keys (calls (snd (run o w)))
       = engine_load_keys (calls w) ++ added.
Proof.
  intros S.
  assert (U : snd (run o w) = w ->
              exists added,
                list_images_id (snd (run o w)) = list_images_id w ++ added
                /\ engine_load_keys (calls (snd (run o w)))
                   = engine_load_keys (calls w) ++ added).
  { intros E. exists []. rewrite E, !List.app_nil_r. split; reflexivity. }
  destruct o; cbn [run on_engine_scene] in *.
  - destruct scene; try discriminate.
    destruct image_path; try (apply U; reflexivity).
    rewrite image_load_scene. cbv zeta.
    destruct (includes (list_images_id w) (cyrb53 s 0)).
    + exists []. rewrite !List.app_nil_r. split; reflexivity.
    + exists [cyrb53 s 0]. split; [reflexivity|].
      cbn [snd after_push calls]. now rewrite engine_load_keys_snoc.
  - exists []. rewrite !List.app_nil_r.
    split; [apply image_add_keeps | apply image_add_klk].
  - destruct scene; try discriminate.
    destruct image_path; try (apply U; reflexivity).
    destruct frame_width; try (apply U; reflexivity).
    destruct frame_height; try (apply U; reflexivity).
    destruct start_frame; try (apply U; reflexivity).
    destruct end_frame; try (apply U; reflexivity).
    rewrite load_spritesheet_scene. cbv zeta.
    destruct (includes (list_images_id w) (cyrb53 s 0)).
    + exists []. rewrite !List.app_nil_r. split; reflexivity.
    + exists [cyrb53 s 0]. split; [reflexivity|].
      cbn [snd after_push calls]. now rewrite engine_load_keys_snoc.
  - exists []. rewrite !List.app_nil_r.
    split; [apply sprite_add_keeps | apply sprite_add_klk].
Qed.

Lemma run_all_in_step (os : list op) : forall w,
  forallb on_engine_scene os = true ->
  exists added,
    list_images_id (run_all os w) = list_images_id w ++ added
    /\ engine_load_keys (calls (run_all os w))
       = engine_load_keys (calls w) ++ added.
Proof.
  induction os as [|o rest IH]; intros w H; cbn [run_all].
  - exists []. rewrite !List.app_nil_r. split; reflexivity.
  - cbn [forallb] in H. apply andb_true_iff in H. destruct H as [Ho Hr].
    destruct (run_in_step o w Ho) as [a1 [R1 K1]].
    destruct (IH (snd (run o w)) Hr) as [a2 [R2 K2]].
    exists (a1 ++ a2). rewrite R2, K2, R1, K1, <- !List.app_assoc.
    split; reflexivity.
Qed.

(** While every call is made on a scene object of the engine, the
    Registry is exactly the list of keys the engine's loader was asked
    for, in the same order: each registered id was requested once. *)
Theorem registry_matches_engine_loads (os : list op)
  (scenes : forallb on_engine_scene os = true) :
  engine_load_keys (calls (run_all os initial_world))
  = list_images_id (run_all os initial_world).
Proof.
  destruct (run_all_in_step os initial_world scenes) as [added [R K]].
  rewrite R, K. reflexivity.
Qed.

Lemma registry_matches_engine_loads_witness :
  let s := Scene (lit "main") in
  let os := [image_load s (String (lit "a.png"));
             image_load s (String (lit "a.png"));
             sprite_load_spritesheet s (String (lit "b.png"))
               (Number 32%float) (Number 32%float)
               (Number 0%float) (Number 7%float);
             image_add s (PP.assets.handle (cyrb53 (lit "a.png") 0) "image")
               (Number 0%float) (Number 0%float)
               (Number 0.5%float) (Number 0.5%float)] in
  engine_load_keys (calls (run_all os initial_world))
  = [cyrb53 (lit "a.png") 0; cyrb53 (lit "b.png") 0].
Proof.
  cbv zeta. rewrite registry_matches_engine_loads by reflexivity.
  vm_compute. reflexivity.
Defined.

(** ** A load that fails at the engine *)

Lemma invoke_throw_unchanged
  (recv : value) (member : list string) (args : list value) (w : world) (e : error) :
  fst (invoke recv member args w) = Throw e ->
  e = TypeError /\ snd (invoke recv member args w) = w.
Proof.
  unfold invoke. destruct recv;
    repeat match goal with
      | |- context [if ?b then _ else _] => destruct b
      | |- context [match ?x with _ => _ end] => destruct x
      end; cbn; intros H; try discriminate; injection H as <-; split; reflexivity.
Qed.

Lemma image_load_object (scene : value) (p : jsstring) (w : world) :
  typeof scene = "object"%string ->
  PP.assets.image.load scene (String p) w =
  if includes (list_images_id w) (cyrb53 p 0)
  then (Normal (PP.assets.handle (cyrb53 p 0) "image"),
        after_warn w (PP.assets.duplicate_warning p))
  else
    match invoke scene ["load"; "image"]%string
            [String (cyrb53 p 0); String p]
            (mkWorld (list_images_id w ++ [cyrb53 p 0])
               (console_warn w) (calls w))
    with
    | (Normal _, w') => (Normal (PP.assets.handle (cyrb53 p 0) "image"), w')
    | (Throw e, w') => (Throw e, w')
    end.
Proof.
  intros T. unfold PP.assets.image.load, cyrb53_default. rewrite T.
  unfold bind at 1. rewrite assert_true.
  unfold bind at 1. cbn [typeof String.eqb Ascii.eqb Bool.eqb]. rewrite assert_true.
  cbn [as_string]. rewrite bind_ret. cbv zeta.
  unfold bind at 1. unfold registry.
  destruct (includes (list_images_id w) (cyrb53 p 0)); [reflexivity|].
  unfold bind at 1. cbn [push_id]. unfold bind at 1.
  destruct (invoke scene _ _ _) as [[v|e] w']; reflexivity.
Qed.

(** A load that gets past the assertions and then fails in the runtime
    (a [null] scene, an object without a loader) has already registered
    its id.  The engine was asked for nothing, yet every later load of
    that path, also on a proper engine scene, is taken for a duplicate:
    it warns and issues no engine load. *)
Theorem failed_load_blocks_the_path
  (scene : value) (p nm : jsstring) (w : world)
  (fresh : includes (list_images_id w) (cyrb53 p 0) = false)
  (fails : fst (PP.assets.image.load scene (String p) w) = Throw TypeError) :
  let w1 := snd (PP.assets.image.load scene (String p) w) in
  list_images_id w1 = list_images_id w ++ [cyrb53 p 0]
  /\ calls w1 = calls w
  /\ console_warn w1 = console_warn w
  /\ PP.assets.image.load (Scene nm) (String p) w1
     = (Normal (PP.assets.handle (cyrb53 p 0) "image"),
        after_warn w1 (PP.assets.duplicate_warning p)).
Proof.
  cbv zeta.
  assert (T : typeof scene = "object"%string).
  { destruct (String.eqb (typeof scene) "object") eqn:Es;
      [now apply String.eqb_eq in Es|].
    unfold PP.assets.image.load in fails. rewrite Es in fails.
    unfold bind at 1 in fails. rewrite assert_false in fails. discriminate. }
  rewrite (image_load_object scene p w T), fresh in *.
  destruct (invoke scene _ _ _) as [[v|e] w'] eqn:I; [discriminate|].
  pose proof (invoke_throw_unchanged _ _ _ _ e (f_equal fst I)) as [_ U].
  rewrite I in U. cbn [snd] in *. subst w'.
  cbn [list_images_id calls console_warn].
  repeat (split; [reflexivity|]).
  apply image_load_duplicate; [reflexivity|].
  cbn [list_images_id]. apply includes_app_self.
Qed.

Lemma failed_load_blocks_the_path_witness :
  let p := lit "hero.png" in
  let w1 := snd (PP.assets.image.load Null (String p) initial_world) in
  calls w1 = []
  /\ calls (snd (PP.assets.image.load (Scene (lit "main")) (String p) w1)) = [].
Proof.
  cbv zeta.
  assert (F : includes (list_images_id initial_world)
                (cyrb53 (lit "hero.png") 0) = false) by reflexivity.
  assert (T : fst (PP.assets.image.load Null (String (lit "hero.png"))
                     initial_world) = Throw TypeError)
    by (vm_compute; reflexivity).
  destruct (failed_load_blocks_the_path Null (lit "hero.png") (lit "main")
              initial_world F T) as [_ [C [_ L]]].
  split; [exact C|]. rewrite L. cbn [snd after_warn calls]. exact C.
Defined.

(** ** Failed assertions change nothing *)

Lemma kw_ret {A} (a : A) : keeps_world (ret a).
Proof. intros w. reflexivity. Qed.

Lemma kw_throw {A} (e : error) : keeps_world (@throw A e).
Proof. intros w. reflexivity. Qed.

Lemma kw_assert (b : bool) (m : string) : keeps_world (PP.debug.assert b m).
Proof. intros w. destruct b; reflexivity. Qed.

Lemma kw_get (v : value) (k : string) : keeps_world (get v k).
Proof. intros w. destruct v; reflexivity. Qed.

Lemma kw_as_string (v : value) : keeps_world (as_string v).
Proof. intros w. destruct v; reflexivity. Qed.

Lemma kw_registry : keeps_world registry.
Proof. intros w. reflexivity. Qed.

Lemma ne_ret {A} (a : A) : never_errors (ret a).
Proof. intros w m. discriminate. Qed.

Lemma ne_type_error {A} : never_errors (@throw A TypeError).
Proof. intros w m. discriminate. Qed.

Lemma ne_warn (line : jsstring) : never_errors (warn line).
Proof. intros w m. discriminate. Qed.

Lemma ne_push_id (x : jsstring) : never_errors (push_id x).
Proof. intros w m. discriminate. Qed.

Lemma ne_emit (e : event) : never_errors (emit e).
Proof. intros w m. discriminate. Qed.

Lemma ne_fresh_serial : never_errors fresh_serial.
Proof. intros w m. discriminate. Qed.

Lemma ne_bind {A B} (c : M A) (k : A -> M B) :
  never_errors c -> (forall a, never_errors (k a)) -> never_errors (bind c k).
Proof.
  intros Hc Hk w m. unfold bind. specialize (Hc w m).
  destruct (c w) as [[a|e] w']; cbn [fst] in *; [apply Hk|].
  intros E. apply Hc. injection E as ->. reflexivity.
Qed.

Create HintDb noerr.
#[local] Hint Resolve ne_ret ne_type_error ne_warn ne_push_id ne_emit
  ne_fresh_serial : noerr.

Ltac noerr :=
  repeat (apply ne_bind; [auto with noerr | intros]); auto with noerr.

Lemma ne_invoke (recv : value) (member : list string) (args : list value) :
  never_errors (invoke recv member args).
Proof.
  unfold invoke. destruct recv;
    repeat match goal with
      | |- never_errors (if ?b then _ else _) => destruct b
      | |- never_errors (match ?x with _ => _ end) => destruct x
      end; noerr.
Qed.

#[local] Hint Resolve ne_invoke : noerr.

Lemma atomic_bind {A B} (c : M A) (k : A -> M B) :
  keeps_world c -> (forall a, assertion_atomic (k a)) ->
  assertion_atomic (bind c k).
Proof.
  intros Hc Hk w m. unfold bind. specialize (Hc w).
  destruct (c w) as [[a|e] w']; cbn [fst snd] in *; subst w'.
  - apply Hk.
  - reflexivity.
Qed.

Lemma atomic_of_never {A} (c : M A) : never_errors c -> assertion_atomic c.
Proof. intros H w m E. now apply H in E. Qed.

Create HintDb pure.
#[local] Hint Resolve kw_ret kw_throw kw_assert kw_get kw_as_string kw_registry
  : pure.

Ltac atomic :=
  repeat (apply atomic_bind; [solve [auto with pure] | intros]).

Lemma run_atomic (o : op) : assertion_atomic (run o).
Proof.
  destruct o; cbn [run].
  - unfold PP.assets.image.load. atomic. cbv zeta. atomic.
    apply atomic_of_never.
    destruct (includes _ _); noerr.
  - unfold PP.assets.image.add. atomic. apply atomic_of_never. noerr.
  - unfold PP.assets.sprite.load_spritesheet. atomic. cbv zeta. atomic.
    apply atomic_of_never.
    destruct (includes _ _); noerr.
  - unfold PP.assets.sprite.add. atomic. apply atomic_of_never. noerr.
Qed.

(** Whenever one of the four asset entry points ends with the [Error] of
    [PP.debug.assert], nothing has happened: the Registry, the console and
    the calls sent to the engine are what they were before the call. *)
Theorem failed_assertion_changes_nothing
  (o : op) (w : world) (m : jsstring)
  (failed : fst (run o w) = Throw (Error m)) :
  snd (run o w) = w.
Proof. exact (run_atomic o w m failed). Qed.

Lemma failed_assertion_changes_nothing_witness :
  let s := Scene (lit "main") in
  let w := snd (PP.assets.image.load s (String (lit "hero.png")) initial_world) in
  let o := image_add s (PP.assets.handle (cyrb53 (lit "hero.png") 0) "image")
             (Number 0%float) (Number 0%float)
             (Number 2%float) (Number 0.5%float) in
  snd (run o w) = w.
Proof.
  cbv zeta.
  apply (failed_assertion_changes_nothing _ _
           (lit "Assertion failed: Parameter error: pivot_x must be between 0 and 1.")).
  vm_compute. reflexivity.
Defined.

(** ** Handles and the two [add] functions *)

(** [PP.assets.image.add] never consults the Registry: on an engine scene
    it takes any object shaped like an image handle, with numbers for the
    position and the pivot, in every state.  It returns exactly when both
    pivots lie in [0, 1] (a NaN does not): the engine is asked for the
    image at (x, y) under the handle's id, then for [setOrigin] on the
    object it returned, and the instance holds that object and the handle.
    Otherwise the assertion fails and nothing has changed. *)
Theorem image_add_on_a_handle
  (nm id : jsstring) (x y px py : float) (w : world) :
  let h := PP.assets.handle id "image" in
  let n := List.length (calls w) in
  let result :=
    PP.assets.image.add (Scene nm) h
      (Number x) (Number y) (Number px) (Number py) w in
  if PP.assets.between_0_and_1 (Number px)
     && PP.assets.between_0_and_1 (Number py)
  then result =
       (Normal (Object [("ph_obj"%string, PhObj n);
                        ("orig_image"%string, h)]),
        mkWorld (list_images_id w) (console_warn w)
          (calls w ++
           [Call (Scene nm) ["add"; "image"]%string
              [Number x; Number y; String id];
            Call (PhObj n) ["setOrigin"]%string [Number px; Number py]]))
  else exists m, result = (Throw (Error m), w).
Proof.
  cbv zeta. unfold PP.assets.image.add, PP.assets.handle.
  destruct (PP.assets.between_0_and_1 (Number px)) eqn:Bx;
    [destruct (PP.assets.between_0_and_1 (Number py)) eqn:By|];
    cbn -[PP.assets.between_0_and_1 PrimFloat.leb];
    unfold bind; cbn -[PP.assets.between_0_and_1 PrimFloat.leb];
    rewrite ?Bx, ?By; cbn -[PrimFloat.leb].
  - rewrite <- List.app_assoc. reflexivity.
  - eexists. reflexivity.
  - eexists. reflexivity.
Qed.

(** [PP.assets.sprite.add] has no assertion on the pivot range: on an
    engine scene, a handle tagged "sprite" with numbers for position and
    pivot is added in every state and for every pivot, also one outside
    [0, 1] or NaN; the instance starts with an empty animation list. *)
Theorem sprite_add_on_a_handle
  (nm id : jsstring) (x y px py : float) (w : world) :
  let h := PP.assets.handle id "sprite" in
  let n := List.length (calls w) in
  PP.assets.sprite.add (Scene nm) h
    (Number x) (Number y) (Number px) (Number py) w
  = (Normal (Object [("ph_obj"%string, PhObj n);
                     ("orig_sprite"%string, h);
                     ("list_of_animations"%string, Object [])]),
     mkWorld (list_images_id w) (console_warn w)
       (calls w ++
        [Call (Scene nm) ["add"; "sprite"]%string
           [Number x; Number y; String id];
         Call (PhObj n) ["setOrigin"]%string [Number px; Number py]])).
Proof.
  cbv zeta. unfold PP.assets.sprite.add, PP.assets.handle.
  cbn. unfold bind. cbn. rewrite <- List.app_assoc. reflexivity.
Qed.

(** The type tag keeps the two kinds of handle apart: [image.add] refuses
    every handle tagged "sprite" and [sprite.add] every handle tagged
    "image", whatever the scene and the other arguments are, by a failed
    assertion that leaves the state as it was. *)
Theorem add_rejects_the_other_tag
  (scene x y px py : value) (id : jsstring) (w : world) :
  (exists m,
     PP.assets.image.add scene (PP.assets.handle id "sprite") x y px py w
     = (Throw (Error m), w))
  /\ (exists m,
        PP.assets.sprite.add scene (PP.assets.handle id "image") x y px py w
        = (Throw (Error m), w)).
Proof.
  unfold PP.assets.image.add, PP.assets.sprite.add, PP.assets.handle.
  destruct (String.eqb (typeof scene) "object") eqn:Es;
    split; eexists; unfold bind; cbn; reflexivity.
Qed.

(** ** Scenes and the game: what each statement leaves alone *)

Lemma with_assets_same (a : app) : with_assets a (assets a) = a.
Proof. destruct a. reflexivity. Qed.

Lemma kw_assert_message (b : bool) (m : jsstring) :
  keeps_world (assert_message b m).
Proof. intros w. destruct b; reflexivity. Qed.

#[local] Hint Resolve kw_assert_message : pure.

Lemma gpure_lift {A} (c : M A) : keeps_world c -> gpure (lift c).
Proof.
  intros H a. unfold lift. cbn [snd]. rewrite H. apply with_assets_same.
Qed.

Lemma gpure_read {A} (f : app -> A) : gpure (read f).
Proof. intros a. reflexivity. Qed.

Lemma gpure_list_names : gpure list_names.
Proof. intros a. unfold list_names. destruct (scenes_list_names a); reflexivity. Qed.

Lemma ka_gret {A} (x : A) : keeps_assets (gret x).
Proof. intros a. reflexivity. Qed.

Lemma ka_gbind {A B} (c : G A) (k : A -> G B) :
  keeps_assets c -> (forall x, keeps_assets (k x)) -> keeps_assets (gbind c k).
Proof.
  intros Hc Hk a. unfold gbind. specialize (Hc a).
  destruct (c a) as [[x|e] a']; cbn [snd] in *.
  - now rewrite Hk.
  - exact Hc.
Qed.

Lemma ka_gpure {A} (c : G A) : gpure c -> keeps_assets c.
Proof. intros H a. now rewrite H. Qed.

Lemma ka_modify (f : app -> app) :
  (forall a, assets (f a) = assets a) -> keeps_assets (modify f).
Proof. intros H a. apply H. Qed.

Lemma ka_log (e : engine_event) : keeps_assets (log e).
Proof. intros a. reflexivity. Qed.

Lemma ka_new_game (e : engine_event) : keeps_assets (new_game e).
Proof. intros a. reflexivity. Qed.

Lemma ka_scene_manager (e : engine_event) : keeps_assets (scene_manager e).
Proof. intros a. unfold scene_manager. destruct (game_ph_obj a); reflexivity. Qed.

Lemma ka_push_name (n : jsstring) : keeps_assets (push_name n).
Proof. intros a. unfold push_name. destruct (scenes_list_names a); reflexivity. Qed.

Lemma ka_push_scene (v : value) : keeps_assets (push_scene v).
Proof. intros a. unfold push_scene. destruct (scenes_list a); reflexivity. Qed.

Create HintDb assetframe.
#[local] Hint Resolve ka_gret ka_log ka_new_game ka_scene_manager ka_push_name
  ka_push_scene : assetframe.
#[local] Hint Extern 1 (keeps_assets (lift _)) =>
  apply ka_gpure, gpure_lift; solve [auto with pure] : assetframe.
#[local] Hint Extern 1 (keeps_assets (read _)) =>
  apply ka_gpure, gpure_read : assetframe.
#[local] Hint Extern 1 (keeps_assets list_names) =>
  apply ka_gpure, gpure_list_names : assetframe.
#[local] Hint Extern 1 (keeps_assets (modify _)) =>
  apply ka_modify; intros; reflexivity : assetframe.
#[local] Hint Extern 1 (keeps_assets (if ?b then _ else _)) =>
  destruct b : assetframe.

Ltac assetframe :=
  repeat (apply ka_gbind; [auto with assetframe | intros]);
  auto with assetframe.

(** The functions of [PP.game] and [PP.scenes] never touch the asset
    state: after any of them, returning or throwing, the Registry, the
    console and the calls recorded on scenes are what they were. *)
Theorem scene_calls_leave_assets_alone
  (Phaser_AUTO : value) (o : gop) (a : app)
  (scene_call : is_scene_call o = true) :
  assets (snd (grun Phaser_AUTO o a)) = assets a.
Proof.
  destruct o; try discriminate; cbn [grun];
    [ unfold PP_game.create | unfold PP_game.start | unfold PP_scenes.add
    | unfold PP_scenes.start | unfold PP_scenes.stop
    | unfold PP_scenes.start_overlay | unfold PP_scenes.stop_overlay ];
    revert a;
    match goal with |- forall a, assets (snd (?c a)) = assets a =>
      change (keeps_assets c) end;
    assetframe.
Qed.

Lemma scene_calls_leave_assets_alone_witness :
  let f := Function in
  assets (snd (grun Undefined (scenes_add (String (lit "menu")) f f f f)
                 initial_app))
  = initial_world.
Proof.
  cbv zeta.
  exact (scene_calls_leave_assets_alone Undefined
           (scenes_add (String (lit "menu")) Function Function Function Function)
           initial_app eq_refl).
Defined.

(** ** Scene names *)

Lemma kss_gret {A} (x : A) : keeps_scene_state (gret x).
Proof. intros a. repeat split. Qed.

Lemma kss_gbind {A B} (c : G A) (k : A -> G B) :
  keeps_scene_state c -> (forall x, keeps_scene_state (k x)) ->
  keeps_scene_state (gbind c k).
Proof.
  intros Hc Hk a. unfold gbind. specialize (Hc a).
  destruct (c a) as [[x|e] a']; cbn [snd] in *; [|exact Hc].
  destruct Hc as [H1 [H2 [H3 H4]]]. rewrite <- H1, <- H2, <- H3, <- H4.
  apply Hk.
Qed.

Lemma kss_lift {A} (c : M A) : keeps_scene_state (lift c).
Proof. intros a. repeat split. Qed.

Lemma kss_read {A} (f : app -> A) : keeps_scene_state (read f).
Proof. intros a. repeat split. Qed.

Lemma kss_list_names : keeps_scene_state list_names.
Proof.
  intros a. unfold list_names.
  destruct (scenes_list_names a) eqn:E; cbn [snd]; rewrite ?E; repeat split.
Qed.

Lemma kss_set_config (v : value) : keeps_scene_state (modify (set_config v)).
Proof. intros a. repeat split. Qed.

Lemma kss_set_main_scene (v : value) :
  keeps_scene_state (modify (set_main_scene v)).
Proof. intros a. repeat split. Qed.

Lemma kss_log (e : engine_event) : keeps_scene_state (log e).
Proof. intros a. repeat split. Qed.

Lemma kss_new_game (e : engine_event) : keeps_scene_state (new_game e).
Proof. intros a. repeat split. Qed.

Lemma kss_scene_manager (e : engine_event) : keeps_scene_state (scene_manager e).
Proof.
  intros a. unfold scene_manager. destruct (game_ph_obj a); repeat split.
Qed.

Create HintDb sceneframe.
#[local] Hint Resolve kss_gret kss_lift kss_read kss_list_names kss_set_config
  kss_set_main_scene kss_log kss_new_game kss_scene_manager : sceneframe.

Ltac sceneframe :=
  repeat (apply kss_gbind; [auto with sceneframe | intros]);
  auto with sceneframe.

Lemma create_kss (t c : value) : keeps_scene_state (PP_game.create t c).
Proof. unfold PP_game.create. sceneframe. Qed.

Lemma game_start_kss (n : value) : keeps_scene_state (PP_game.start n).
Proof. unfold PP_game.start. sceneframe. Qed.

Lemma scenes_start_kss (n : value) : keeps_scene_state (PP_scenes.start n).
Proof. unfold PP_scenes.start. sceneframe. Qed.

Lemma asset_kss (o : op) :
  keeps_scene_state (gbind (lift (run o)) (fun _ => gret tt)).
Proof. sceneframe. Qed.

(** While no scene was ever started the three functions that test
    [PP.game.current_scene_name] give up before they do anything. *)
Lemma stop_blocked (a : app) :
  current_scene_name a = Undefined ->
  exists m, PP_scenes.stop a = (Throw (Error m), a).
Proof.
  destruct a. cbn [current_scene_name]. intros ->. eexists. reflexivity.
Qed.

Lemma stop_overlay_blocked (a : app) :
  current_scene_name a = Undefined ->
  exists m, PP_scenes.stop_overlay a = (Throw (Error m), a).
Proof.
  destruct a. cbn [current_scene_name]. intros ->. eexists. reflexivity.
Qed.

Lemma start_overlay_blocked (scene_name : value) (a : app) :
  current_scene_name a = Undefined ->
  exists e, PP_scenes.start_overlay scene_name a = (Throw e, a).
Proof.
  destruct a as [w sl sn cfg ph main cur ov eng].
  cbn [current_scene_name]. intros ->.
  destruct scene_name; try (eexists; reflexivity).
  destruct sn as [names|]; [|eexists; reflexivity].
  unfold PP_scenes.start_overlay, gbind, lift, list_names, read.
  cbn -[includes lit List.app].
  destruct (includes names s); eexists; reflexivity.
Qed.

Lemma kss_invariants {A} (c : G A) (a : app) :
  keeps_scene_state c ->
  never_started a /\ scenes_in_step a ->
  never_started (snd (c a)) /\ scenes_in_step (snd (c a)).
Proof.
  intros K [[N1 N2] S]. destruct (K a) as [H1 [H2 [H3 H4]]].
  unfold never_started, scenes_in_step. rewrite H1, H2, H3, H4.
  repeat split; assumption.
Qed.

Lemma NoDup_names_snoc (names : list jsstring) (n : jsstring) :
  NoDup names -> includes names n = false -> NoDup (names ++ [n]).
Proof. apply NoDup_snoc. Qed.

(** [PP.scenes.add] with a string and four functions, in a state whose
    scene lists are in step. *)
Lemma scenes_add_in_step (n : jsstring) (a : app) :
  scenes_in_step a ->
  let names := registered_names a in
  PP_scenes.add (String n) Function Function Function Function a
  = if includes names n
    then (Throw (Error (lit "Assertion failed: Duplicated scene name: " ++ n)), a)
    else (Normal tt,
          mkApp (assets a) (Some (map Scene (names ++ [n])))
            (Some (names ++ [n])) (game_config a) (game_ph_obj a)
            (current_main_scene_name a) (current_scene_name a)
            (in_overlay_mode a) (engine a ++ [NewScene n])).
Proof.
  destruct a as [w sl sn cfg ph main cur ov eng].
  unfold scenes_in_step, registered_names.
  cbn [scenes_list scenes_list_names].
  destruct sl as [scenes|], sn as [names|]; try contradiction.
  - intros [_ [_ ->]]. cbv zeta.
    unfold PP_scenes.add, gbind, lift, list_names, read, push_name, log,
      modify, push_scene.
    cbn -[includes lit List.app map].
    destruct (includes names n); cbn -[lit List.app map].
    + reflexivity.
    + rewrite map_app. reflexivity.
  - intros _. cbv zeta. reflexivity.
Qed.

Lemma scenes_add_invariants
  (v f1 f2 f3 f4 : value) (a : app) :
  never_started a /\ scenes_in_step a ->
  never_started (snd (PP_scenes.add v f1 f2 f3 f4 a))
  /\ scenes_in_step (snd (PP_scenes.add v f1 f2 f3 f4 a)).
Proof.
  intros I.
  assert (U : forall e, PP_scenes.add v f1 f2 f3 f4 a = (Throw e, a) ->
              never_started (snd (PP_scenes.add v f1 f2 f3 f4 a))
              /\ scenes_in_step (snd (PP_scenes.add v f1 f2 f3 f4 a))).
  { intros e E. rewrite E. exact I. }
  destruct v; try (eapply U; destruct a; reflexivity).
  destruct f1; try (eapply U; destruct a; reflexivity).
  destruct f2; try (eapply U; destruct a; reflexivity).
  destruct f3; try (eapply U; destruct a; reflexivity).
  destruct f4; try (eapply U; destruct a; reflexivity).
  destruct I as [[N1 N2] S].
  rewrite (scenes_add_in_step s a S). cbv zeta.
  destruct (includes (registered_names a) s) eqn:E.
  - repeat split; assumption.
  - cbn [snd]. split; [split; assumption|].
    unfold scenes_in_step, registered_names in *.
    cbn [scenes_list scenes_list_names].
    destruct (scenes_list a), (scenes_list_names a); try contradiction.
    + destruct S as [_ [D _]]. split; [|split; [|reflexivity]].
      * intros X. apply app_eq_nil in X. destruct X as [_ X]. discriminate.
      * now apply NoDup_names_snoc.
    + split; [discriminate|]. split; [|reflexivity].
      cbn. repeat constructor. intros [].
Qed.

Lemma grun_invariants (t : value) (o : gop) (a : app) :
  never_started a /\ scenes_in_step a ->
  never_started (snd (grun t o a)) /\ scenes_in_step (snd (grun t o a)).
Proof.
  intros I. destruct o; cbn [grun].
  - apply kss_invariants; [apply create_kss | exact I].
  - apply kss_invariants; [apply game_start_kss | exact I].
  - now apply scenes_add_invariants.
  - apply kss_invariants; [apply scenes_start_kss | exact I].
  - destruct (stop_blocked a (proj1 (proj1 I))) as [m ->]. exact I.
  - destruct (start_overlay_blocked scene_name a (proj1 (proj1 I))) as [e ->].
    exact I.
  - destruct (stop_overlay_blocked a (proj1 (proj1 I))) as [m ->]. exact I.
  - apply kss_invariants; [apply asset_kss | exact I].
Qed.

Lemma grun_all_invariants (t : value) (os : list gop) : forall a,
  never_started a /\ scenes_in_step a ->
  never_started (grun_all t os a) /\ scenes_in_step (grun_all t os a).
Proof.
  induction os as [|o rest IH]; intros a I; cbn [grun_all].
  - exact I.
  - apply IH, grun_invariants, I.
Qed.

Lemma initial_invariants : never_started initial_app /\ scenes_in_step initial_app.
Proof. repeat split. Qed.

(** Whatever calls a program makes, [PP.scenes.list] and
    [PP.scenes.list_names] are both unassigned, or they hold the same
    non-empty sequence: pairwise different names, and for each name, at
    the same index, the scene object that was constructed with it. *)
Theorem scene_lists_stay_in_step (Phaser_AUTO : value) (os : list gop) :
  scenes_in_step (grun_all Phaser_AUTO os initial_app).
Proof. apply grun_all_invariants, initial_invariants. Qed.

(** No function ever assigns [PP.game.current_scene_name]
    ([PP.scenes.start] assigns [current_main_scene_name]), so in every
    state a program can reach through the entry points
    [PP.scenes.stop], [PP.scenes.start_overlay]
    and [PP.scenes.stop_overlay] throw, whatever their argument, and leave
    the state as it was: the engine is never asked to stop, launch or
    resume a scene. *)
Theorem overlay_and_stop_always_throw
  (Phaser_AUTO : value) (os : list gop) (scene_name : value) :
  let a := grun_all Phaser_AUTO os initial_app in
  (exists m, PP_scenes.stop a = (Throw (Error m), a))
  /\ (exists e, PP_scenes.start_overlay scene_name a = (Throw e, a))
  /\ (exists m, PP_scenes.stop_overlay a = (Throw (Error m), a)).
Proof.
  cbv zeta.
  destruct (grun_all_invariants Phaser_AUTO os initial_app initial_invariants)
    as [[N _] _].
  split; [now apply stop_blocked|].
  split; [now apply start_overlay_blocked | now apply stop_overlay_blocked].
Qed.

(** In every state a program can reach, [PP.scenes.add] with a string and
    four functions throws "Duplicated scene name" and changes nothing if
    the name is registered already; otherwise it returns, the name and a
    scene object constructed with it are appended to the two lists, the
    engine has constructed that one scene, and nothing else changed. *)
Theorem scenes_add_rejects_duplicates
  (Phaser_AUTO : value) (os : list gop) (n : jsstring) :
  let a := grun_all Phaser_AUTO os initial_app in
  let names := registered_names a in
  PP_scenes.add (String n) Function Function Function Function a
  = if includes names n
    then (Throw (Error (lit "Assertion failed: Duplicated scene name: " ++ n)), a)
    else (Normal tt,
          mkApp (assets a) (Some (map Scene (names ++ [n])))
            (Some (names ++ [n])) (game_config a) (game_ph_obj a)
            (current_main_scene_name a) (current_scene_name a)
            (in_overlay_mode a) (engine a ++ [NewScene n])).
Proof.
  cbv zeta. apply scenes_add_in_step.
  apply grun_all_invariants, initial_invariants.
Qed.

(** ** Creating the game and starting a scene *)

Lemma gblocked_bind {A B} (c : G A) (k : A -> G B) (a : app) :
  gpure c -> (forall x, exists e, k x a = (Throw e, a)) ->
  exists e, gbind c k a = (Throw e, a).
Proof.
  intros P K. unfold gbind. specialize (P a).
  destruct (c a) as [[x|e] a']; cbn [snd] in P; subst a'.
  - apply K.
  - now exists e.
Qed.

(** [PP.game.create] before any scene was added never creates a game:
    whatever the configuration is, the call throws (the assertion "You
    need to add at least one scene!" if the configuration is acceptable)
    and the state is unchanged. *)
Theorem create_needs_a_scene (Phaser_AUTO config : value) (a : app)
  (no_scene : scenes_list a = None) :
  exists e, PP_game.create Phaser_AUTO config a = (Throw e, a).
Proof.
  unfold PP_game.create.
  do 8 (apply gblocked_bind;
        [apply gpure_lift; auto with pure | intros]).
  unfold gbind at 1. unfold read. rewrite no_scene.
  unfold gbind, lift. cbn [fst snd is_defined PP.debug.assert negb throw].
  eexists. now rewrite with_assets_same.
Qed.

Lemma create_needs_a_scene_witness :
  exists e,
    PP_game.create (Number 0%float)
      (Object [("canvas_width"%string, Number 800%float);
               ("canvas_height"%string, Number 600%float);
               ("canvas_id"%string, String (lit "game"))])
      initial_app
    = (Throw e, initial_app).
Proof. apply create_needs_a_scene. reflexivity. Defined.

(** Starting a scene by name, for a string argument.  While no scene was
    ever added both functions fail in the runtime.  An unknown name fails
    its assertion and changes nothing.  A known name reaches the engine
    if the game exists; if it does not, both functions fail in the
    runtime, but [PP.scenes.start] has recorded the name as the main
    scene by then whereas [PP.game.start] changed nothing. *)
Theorem starting_a_scene (n : jsstring) (a : app) :
  PP_scenes.start (String n) a =
  match scenes_list_names a with
  | None => (Throw TypeError, a)
  | Some names =>
      if includes names n then
        match game_ph_obj a with
        | Some _ =>
            log (SceneStart (String n)) (set_main_scene (String n) a)
        | None => (Throw TypeError, set_main_scene (String n) a)
        end
      else
        (Throw (Error (lit "Assertion failed: "
                         ++ (lit "No scene named '" ++ n ++ lit "' exist."))),
         a)
  end
  /\
  PP_game.start (String n) a =
  match scenes_list_names a with
  | None => (Throw TypeError, a)
  | Some names =>
      if includes names n then
        match game_ph_obj a with
        | Some _ => log (SceneStart (String n)) a
        | None => (Throw TypeError, a)
        end
      else
        (Throw (Error (lit "Assertion failed: "
                         ++ (lit "Trying to start a non-existent scene: " ++ n))),
         a)
  end.
Proof.
  destruct a as [w sl sn cfg ph main cur ov eng].
  cbn [scenes_list_names game_ph_obj].
  unfold PP_scenes.start, PP_game.start, gbind, lift, list_names, modify,
    scene_manager.
  destruct sn as [names|]; [|split; reflexivity].
  cbn -[includes lit List.app log].
  destruct (includes names n); cbn -[lit List.app log]; [|split; reflexivity].
  destruct ph; split; reflexivity.
Qed.

Lemma gbind_normal {A B} (c : G A) (k : A -> G B) (a a' : app) (x : A) :
  c a = (Normal x, a') -> gbind c k a = k x a'.
Proof. intros E. unfold gbind. now rewrite E. Qed.

Lemma lift_get_object (fields : list (string * value)) (k : string) (a : app) :
  lift (get (Object fields) k) a = (Normal (lookup k fields), a).
Proof. destruct a. reflexivity. Qed.

Lemma lift_assert_true (b : bool) (m : string) (a : app) :
  b = true -> lift (PP.debug.assert b m) a = (Normal tt, a).
Proof. intros ->. destruct a. reflexivity. Qed.

Ltac gstep :=
  erewrite gbind_normal;
  [| first [ apply lift_get_object
           | apply lift_assert_true; eassumption
           | reflexivity ] ];
  cbv beta.

(** [PP.game.create] with an acceptable configuration, once a scene list
    exists: the configuration is kept and the game is constructed. *)
Lemma create_ok
  (Phaser_AUTO : value) (fields : list (string * value))
  (scenes : list value) (a : app) :
  config_ok (Object fields) = true ->
  scenes_list a = Some scenes ->
  PP_game.create Phaser_AUTO (Object fields) a
  = new_game
      (NewGame Phaser_AUTO (lookup "canvas_width" fields)
         (lookup "canvas_height" fields) (lookup "background_color" fields)
         (Some scenes) true (lookup "canvas_id" fields))
      (set_config (Object fields) a).
Proof.
  intros acceptable S. unfold config_ok in acceptable.
  apply andb_true_iff in acceptable. destruct acceptable as [acc Hi].
  apply andb_true_iff in acc. destruct acc as [Hw Hh].
  assert (Tw : String.eqb (typeof (lookup "canvas_width" fields)) "number" = true).
  { destruct (lookup "canvas_width" fields); try discriminate. reflexivity. }
  assert (D : is_defined (scenes_list a) = true) by now rewrite S.
  unfold PP_game.create.
  do 9 gstep.
  erewrite gbind_normal; [| apply lift_assert_true; exact D]. cbv beta.
  do 4 gstep.
  erewrite (gbind_normal (read scenes_list));
    [| unfold read; cbn [set_config scenes_list]; rewrite S; reflexivity].
  cbv beta. gstep. reflexivity.
Qed.

(** The intended life cycle works: from start-up, adding a scene, creating
    the game with an acceptable configuration and starting the scene by
    its name all return.  The engine has constructed the scene, then the
    game with the configured size, colour and parent and that one scene,
    and was then asked to start the scene; the name is recorded as the
    main scene. *)
Theorem add_create_start
  (Phaser_AUTO : value) (n : jsstring) (fields : list (string * value))
  (acceptable : config_ok (Object fields) = true) :
  let f := Function in
  let a1 := snd (PP_scenes.add (String n) f f f f initial_app) in
  let a2 := snd (PP_game.create Phaser_AUTO (Object fields) a1) in
  PP_scenes.add (String n) f f f f initial_app = (Normal tt, a1)
  /\ PP_game.create Phaser_AUTO (Object fields) a1 = (Normal tt, a2)
  /\ PP_scenes.start (String n) a2 =
     (Normal tt,
      mkApp initial_world (Some [Scene n]) (Some [n]) (Object fields) (Some 1%nat)
        (String n) Undefined Undefined
        [NewScene n;
         NewGame Phaser_AUTO (lookup "canvas_width" fields)
           (lookup "canvas_height" fields) (lookup "background_color" fields)
           (Some [Scene n]) true (lookup "canvas_id" fields);
         SceneStart (String n)]).
Proof.
  cbv zeta.
  assert (A1 : PP_scenes.add (String n) Function Function Function Function
                 initial_app
               = (Normal tt,
                  mkApp initial_world (Some [Scene n]) (Some [n]) Undefined None
                    Undefined Undefined Undefined [NewScene n]))
    by reflexivity.
  rewrite A1. cbn [snd]. split; [reflexivity|].
  rewrite (create_ok Phaser_AUTO fields [Scene n]) by (exact acceptable || reflexivity).
  cbn [snd new_game set_config assets scenes_list scenes_list_names
         game_config game_ph_obj current_main_scene_name current_scene_name
         in_overlay_mode engine List.length List.app].
  split; [reflexivity|].
  unfold PP_scenes.start, gbind, lift, list_names, modify, scene_manager.
  cbn -[includes lit List.app log].
  unfold includes. cbn [existsb]. rewrite string_eqb_refl. reflexivity.
Qed.

Lemma add_create_start_witness :
  let cfg := [("canvas_width"%string, Number 800%float);
              ("canvas_height"%string, Number 600%float);
              ("canvas_id"%string, String (lit "game"));
              ("background_color"%string, Number 0%float)] in
  let f := Function in
  let a1 := snd (PP_scenes.add (String (lit "menu")) f f f f initial_app) in
  let a2 := snd (PP_game.create (Number 0%float) (Object cfg) a1) in
  fst (PP_scenes.start (String (lit "menu")) a2) = Normal tt.
Proof.
  cbv zeta.
  destruct (add_create_start (Number 0%float) (lit "menu")
              [("canvas_width"%string, Number 800%float);
               ("canvas_height"%string, Number 600%float);
               ("canvas_id"%string, String (lit "game"));
               ("background_color"%string, Number 0%float)]
              eq_refl) as [_ [_ S]].
  cbv zeta in S. rewrite S. reflexivity.
Defined.

(** ** Every accepted load is accounted for *)

Lemma kac_ret {A} (a : A) : keeps_accounted (ret a).
Proof. intros w. reflexivity. Qed.

Lemma kac_throw {A} (e : error) : keeps_accounted (@throw A e).
Proof. intros w. reflexivity. Qed.

Lemma kac_bind {A B} (c : M A) (k : A -> M B) :
  keeps_accounted c -> (forall a, keeps_accounted (k a)) ->
  keeps_accounted (bind c k).
Proof.
  intros Hc Hk w. unfold bind. specialize (Hc w).
  destruct (c w) as [[a|e] w']; cbn [snd] in *.
  - now rewrite Hk.
  - exact Hc.
Qed.

Lemma kac_assert (b : bool) (m : string) : keeps_accounted (PP.debug.assert b m).
Proof. intros w. destruct b; reflexivity. Qed.

Lemma kac_get (v : value) (k : string) : keeps_accounted (get v k).
Proof. intros w. destruct v; reflexivity. Qed.

Lemma kac_fresh_serial : keeps_accounted fresh_serial.
Proof. intros w. reflexivity. Qed.

Lemma kac_emit (e : event) : keeps_accounted (emit e).
Proof. intros w. reflexivity. Qed.

Create HintDb accounts.
#[local] Hint Resolve kac_ret kac_throw kac_assert kac_get kac_fresh_serial
  kac_emit : accounts.

Ltac accounts :=
  repeat (apply kac_bind; [auto with accounts | intros]); auto with accounts.

Lemma kac_invoke (recv : value) (member : list string) (args : list value) :
  keeps_accounted (invoke recv member args).
Proof.
  unfold invoke. destruct recv;
    repeat match goal with
      | |- keeps_accounted (if ?b then _ else _) => destruct b
      | |- keeps_accounted (match ?x with _ => _ end) => destruct x
      end; accounts.
Qed.

#[local] Hint Resolve kac_invoke : accounts.

Lemma image_add_kac (scene image x y px py : value) :
  keeps_accounted (PP.assets.image.add scene image x y px py).
Proof. unfold PP.assets.image.add. accounts. Qed.

Lemma sprite_add_kac (scene sprite x y px py : value) :
  keeps_accounted (PP.assets.sprite.add scene sprite x y px py).
Proof. unfold PP.assets.sprite.add. accounts. Qed.

Lemma typeof_string (v : value) :
  String.eqb (typeof v) "string" = true -> exists s, v = String s.
Proof. destruct v; try discriminate. intros _. now exists s. Qed.

(** The tail shared by the two loaders counts one: a warning or an id. *)
Lemma check_and_insert_counts {A}
  (url_hash line : jsstring) (dup : M A) (load : M A) (w : world) :
  keeps_accounted dup -> keeps_accounted load ->
  accounted
    (snd ((ids <- registry ;;
           if includes ids url_hash then warn line ;; dup
           else push_id url_hash ;; load) w))
  = S (accounted w).
Proof.
  intros Hd Hl.
  assert (R : forall k : list jsstring -> M A,
             (ids <- registry ;; k ids) w = k (list_images_id w) w)
    by reflexivity.
  rewrite R. destruct (includes (list_images_id w) url_hash).
  - unfold bind, warn. cbn iota beta. rewrite Hd.
    unfold accounted. cbn [list_images_id console_warn].
    rewrite length_app. cbn [List.length]. lia.
  - unfold bind, push_id. cbn iota beta. rewrite Hl.
    unfold accounted. cbn [list_images_id console_warn].
    rewrite length_app. cbn [List.length]. lia.
Qed.

Lemma bind_assert_true {B} (m : string) (k : unit -> M B) :
  bind (PP.debug.assert true m) k = k tt.
Proof. reflexivity. Qed.

Lemma bind_assert_false {B} (m : string) (k : unit -> M B) (w : world) :
  snd (bind (PP.debug.assert false m) k w) = w.
Proof. reflexivity. Qed.

Lemma run_accounted (o : op) (w : world) :
  accounted (snd (run o w))
  = (accounted w + if accepted_load o then 1 else 0)%nat.
Proof.
  destruct o; cbn [run accepted_load].
  - unfold PP.assets.image.load.
    destruct (String.eqb (typeof scene) "object");
      [|rewrite bind_assert_false; cbn; lia].
    rewrite bind_assert_true.
    destruct (String.eqb (typeof image_path) "string") eqn:Ep;
      [|rewrite bind_assert_false; cbn; lia].
    rewrite bind_assert_true.
    destruct (typeof_string _ Ep) as [s ->].
    cbn [as_string andb]. rewrite bind_ret. cbv zeta.
    rewrite check_and_insert_counts by accounts. lia.
  - rewrite image_add_kac. lia.
  - unfold PP.assets.sprite.load_spritesheet.
    destruct (String.eqb (typeof scene) "object");
      [|rewrite bind_assert_false; cbn; lia].
    rewrite bind_assert_true.
    destruct (String.eqb (typeof image_path) "string") eqn:Ep;
      [|rewrite bind_assert_false; cbn; lia].
    rewrite bind_assert_true.
    destruct (PP.assets.is_number frame_width);
      [|rewrite bind_assert_false; cbn; lia].
    rewrite bind_assert_true.
    destruct (PP.assets.is_number frame_height);
      [|rewrite bind_assert_false; cbn; lia].
    rewrite bind_assert_true.
    destruct (PP.assets.is_number start_frame);
      [|rewrite bind_assert_false; cbn; lia].
    rewrite bind_assert_true.
    destruct (PP.assets.is_number end_frame);
      [|rewrite bind_assert_false; cbn; lia].
    rewrite bind_assert_true.
    destruct (typeof_string _ Ep) as [s ->].
    cbn [as_string andb]. rewrite bind_ret. cbv zeta.
    rewrite check_and_insert_counts by accounts. lia.
  - rewrite sprite_add_kac. lia.
Qed.

Lemma run_all_accounted (os : list op) : forall w,
  accounted (run_all os w)
  = (accounted w + List.length (filter accepted_load os))%nat.
Proof.
  induction os as [|o rest IH]; intros w; cbn [run_all filter].
  - cbn. lia.
  - rewrite IH, run_accounted.
    destruct (accepted_load o); cbn [List.length]; lia.
Qed.

(** No load request is dropped silently.  Every call of a loader that
    passes the loader's assertions either registers one new id or writes
    one warning line, whatever the scene does afterwards; no other call
    does either.  So the ids in the Registry and the lines on the console
    together are as many as the accepted load requests. *)
Theorem every_accepted_load_is_accounted_for (os : list op) :
  let w := run_all os initial_world in
  (List.length (list_images_id w) + List.length (console_warn w))%nat
  = List.length (filter accepted_load os).
Proof.
  cbv zeta. change (accounted (run_all os initial_world)
                    = List.length (filter accepted_load os)).
  rewrite run_all_accounted. reflexivity.
Qed.
